(** * LIn_Poly_Reg: the regression and interaction engine of main_lr_pl_v.cpp

    A shallow embedding of the numerical core of the program:

    - [computeLinearRegression] and [computePolynomialRegression2], the two
      least-squares fits;
    - [updateModelAndBounds], [toScreenCoords], [toDataCoords] and
      [updateAxes], the lambdas of [main] that keep the derived state;
    - [removeNearestPoint], the right-click handler;
    - [handleEvent], the body of the event loop of [main], with the input
      line ([textEntered]), the prediction and the vertices of the curve.

    Numbers.  The program stores coordinates as [float] and accumulates the
    quadratic sums as [double].  The development reads the program twice.

    - Over exact arithmetic: [float] and [double] are the real numbers of
      the Standard Library, a cast between [float], [double] and an integer
      count is the canonical injection, and there is neither NaN nor an
      infinity.  Division is the total division of [R]; the fact that the
      program never divides by zero is a theorem of its own, proved on
      instrumented copies of the two fits.  The definitions outside
      [Binary] are this reading, and a statement about them is a statement
      about the program run over exact arithmetic.

    - In binary arithmetic: module [Binary] gives the two fits and
      [updateModelAndBounds] once more with IEEE 754 binary32 for [float]
      and binary64 for [double], every operation rounded.  These
      definitions compute, and the last section runs them on inputs where
      rounding makes the program depart from the exact reading.

    Counts and indices.  The [int] values of the program (the point count
    [n], the loop index [i], [minIndex]) are integers without wrap-around,
    which is what the program computes on any vector of fewer than 2^31
    points. *)

From Stdlib Require Import Reals Lra Lia List Bool ZArith Permutation Ascii.
From Stdlib Require Import Floats.SpecFloat.
Import ListNotations.

Local Open Scope R_scope.

(** * Data model *)

(** [struct Point { float x; float y; }] *)
Module Point.
Record t : Type := mk { x : R; y : R }.
End Point.

(** [enum class RegressionType { LINEAR, POLYNOMIAL2 }] *)
Inductive RegressionType : Type := LINEAR | POLYNOMIAL2.

(** [struct Poly2Coeffs { float a; float b; float c; }]: y = a*x^2 + b*x + c. *)
Module Poly2Coeffs.
Record t : Type := mk { a : R; b : R; c : R }.
End Poly2Coeffs.

(** [sf::Vector2f] *)
Definition Vector2f : Type := (R * R)%type.

(** The comparisons of the source, as booleans. *)
Definition Rltb (u v : R) : bool := if Rlt_dec u v then true else false.
Definition Rgtb (u v : R) : bool := Rltb v u.
Definition Rneqb (u v : R) : bool := if Req_dec_T u v then false else true.

(** * The two fits *)

(** [computeLinearRegression], lines 105-137.  Each range-for loop is a fold
    over the vector that carries the loop's two accumulators. *)
Definition computeLinearRegression (points : list Point.t) : R * R :=
  match points with
  | [] => (0, 0)
  | _ :: _ =>
      let '(sumX, sumY) :=
        fold_left (fun '(sX, sY) p => (sX + Point.x p, sY + Point.y p))
                  points (0, 0) in
      let meanX := sumX / INR (length points) in
      let meanY := sumY / INR (length points) in
      let '(numerator, denominator) :=
        fold_left
          (fun '(num, den) p =>
             let dx := Point.x p - meanX in
             let dy := Point.y p - meanY in
             (num + dx * dy, den + dx * dx))
          points (0, 0) in
      let slope := if Rneqb denominator 0 then numerator / denominator else 0 in
      let intercept := meanY - slope * meanX in
      (slope, intercept)
  end.

(** The seven running sums of [computePolynomialRegression2], lines 161-167. *)
Record Sums : Type := mkSums {
  Sx : R; Sy : R; Sx2 : R; Sx3 : R; Sx4 : R; Sxy : R; Sx2y : R
}.

(** The body of the summation loop, lines 170-185. *)
Definition addPoint (s : Sums) (p : Point.t) : Sums :=
  let x := Point.x p in
  let y := Point.y p in
  let x2 := x * x in
  let x3 := x2 * x in
  let x4 := x3 * x in
  {| Sx := Sx s + x;
     Sy := Sy s + y;
     Sx2 := Sx2 s + x2;
     Sx3 := Sx3 s + x3;
     Sx4 := Sx4 s + x4;
     Sxy := Sxy s + x * y;
     Sx2y := Sx2y s + x2 * y |}.

Definition sumsOf (points : list Point.t) : Sums :=
  fold_left addPoint points (mkSums 0 0 0 0 0 0 0).

(** [double m[3][3]] and [double B[3]] as rows of cells; [m[i][j]] reads a
    cell, [m[i][j] = v] overwrites one, [memcpy] is a copy of the value. *)
Definition Matrix : Type := list (list R).

Fixpoint setNth {A : Type} (i : nat) (v : A) (l : list A) : list A :=
  match l, i with
  | [], _ => []
  | _ :: tl, O => v :: tl
  | hd :: tl, S i' => hd :: setNth i' v tl
  end.

Definition cell (m : Matrix) (i j : nat) : R := nth j (nth i m []) 0.
Definition setCell (m : Matrix) (i j : nat) (v : R) : Matrix :=
  setNth i (setNth j v (nth i m [])) m.
Definition elt (B : list R) (i : nat) : R := nth i B 0.

(** The lambda [det3], lines 203-207. *)
Definition det3 (m : Matrix) : R :=
  cell m 0 0 * (cell m 1 1 * cell m 2 2 - cell m 1 2 * cell m 2 1) -
  cell m 0 1 * (cell m 1 0 * cell m 2 2 - cell m 1 2 * cell m 2 0) +
  cell m 0 2 * (cell m 1 0 * cell m 2 1 - cell m 1 1 * cell m 2 0).

(** The matrix [A] and the vector [B], lines 195-200. *)
Definition matrixA (n : nat) (s : Sums) : Matrix :=
  [ [ INR n; Sx s;  Sx2 s ];
    [ Sx s;  Sx2 s; Sx3 s ];
    [ Sx2 s; Sx3 s; Sx4 s ] ].

Definition vectorB (s : Sums) : list R := [ Sy s; Sxy s; Sx2y s ].

(** [A] with column [j] overwritten by [B], lines 218-222, 226-230, 234-238. *)
Definition replaceColumn (A : Matrix) (j : nat) (B : list R) : Matrix :=
  let A1 := setCell A 0 j (elt B 0) in
  let A2 := setCell A1 1 j (elt B 1) in
  setCell A2 2 j (elt B 2).

(** The singularity threshold of line 210. *)
Definition detThreshold : R := 1e-12.

(** [computePolynomialRegression2], lines 151-249. *)
Definition computePolynomialRegression2 (points : list Point.t) : Poly2Coeffs.t :=
  let coeffs := Poly2Coeffs.mk 0 0 0 in
  if (length points <? 3)%nat then coeffs
  else
    let s := sumsOf points in
    let n := length points in
    let A := matrixA n s in
    let B := vectorB s in
    let D := det3 A in
    if Rltb (Rabs D) detThreshold then coeffs
    else
      let D_c := det3 (replaceColumn A 0 B) in
      let D_b := det3 (replaceColumn A 1 B) in
      let D_a := det3 (replaceColumn A 2 B) in
      let c := D_c / D in
      let b := D_b / D in
      let a := D_a / D in
      Poly2Coeffs.mk a b c.

(** [evaluatePoly2], lines 252-255. *)
Definition evaluatePoly2 (coeffs : Poly2Coeffs.t) (x : R) : R :=
  Poly2Coeffs.a coeffs * x * x + Poly2Coeffs.b coeffs * x + Poly2Coeffs.c coeffs.

(** * The state captured by the lambdas of [main] *)

(** The locals of [main] that the lambdas capture by reference: the point
    vector, the active fit and its coefficients, the bounds, the window
    size as [window.getSize()] reports it, and the axis geometry that
    [updateAxes] writes (vertex positions and label positions). *)
Record AppState : Type := mkAppState {
  dataPoints : list Point.t;
  currentReg : RegressionType;
  slope : R;
  intercept : R;
  polyCoeffs : Poly2Coeffs.t;
  minX : R;
  maxX : R;
  minY : R;
  maxY : R;
  windowW : R;
  windowH : R;
  axisX : Vector2f * Vector2f;
  axisY : Vector2f * Vector2f;
  labelX : Vector2f;
  labelY : Vector2f
}.

Definition setDataPoints (st : AppState) (pts : list Point.t) : AppState :=
  {| dataPoints := pts; currentReg := currentReg st;
     slope := slope st; intercept := intercept st; polyCoeffs := polyCoeffs st;
     minX := minX st; maxX := maxX st; minY := minY st; maxY := maxY st;
     windowW := windowW st; windowH := windowH st;
     axisX := axisX st; axisY := axisY st;
     labelX := labelX st; labelY := labelY st |}.

Definition setModelAndBounds (st : AppState)
    (s i : R) (pc : Poly2Coeffs.t) (mnX mxX mnY mxY : R) : AppState :=
  {| dataPoints := dataPoints st; currentReg := currentReg st;
     slope := s; intercept := i; polyCoeffs := pc;
     minX := mnX; maxX := mxX; minY := mnY; maxY := mxY;
     windowW := windowW st; windowH := windowH st;
     axisX := axisX st; axisY := axisY st;
     labelX := labelX st; labelY := labelY st |}.

Definition setAxes (st : AppState)
    (aX aY : Vector2f * Vector2f) (lX lY : Vector2f) : AppState :=
  {| dataPoints := dataPoints st; currentReg := currentReg st;
     slope := slope st; intercept := intercept st; polyCoeffs := polyCoeffs st;
     minX := minX st; maxX := maxX st; minY := minY st; maxY := maxY st;
     windowW := windowW st; windowH := windowH st;
     axisX := aX; axisY := aY;
     labelX := lX; labelY := lY |}.

(** The min/max scan of lines 348-354. *)
Definition scanStep (acc : R * R * R * R) (p : Point.t) : R * R * R * R :=
  let '(mnX, mxX, mnY, mxY) := acc in
  let mnX := if Rltb (Point.x p) mnX then Point.x p else mnX in
  let mxX := if Rgtb (Point.x p) mxX then Point.x p else mxX in
  let mnY := if Rltb (Point.y p) mnY then Point.y p else mnY in
  let mxY := if Rgtb (Point.y p) mxY then Point.y p else mxY in
  (mnX, mxX, mnY, mxY).

(** The lambda [updateModelAndBounds], lines 339-382. *)
Definition updateModelAndBounds (st : AppState) : AppState :=
  match dataPoints st with
  | front :: _ =>
      let '(mnX, mxX, mnY, mxY) :=
        fold_left scanStep (dataPoints st)
          (Point.x front, Point.x front, Point.y front, Point.y front) in
      let pad := 1 in
      let mnX := mnX - pad in
      let mxX := mxX + pad in
      let mnY := mnY - pad in
      let mxY := mxY + pad in
      match currentReg st with
      | LINEAR =>
          let '(s, b) := computeLinearRegression (dataPoints st) in
          setModelAndBounds st s b (polyCoeffs st) mnX mxX mnY mxY
      | POLYNOMIAL2 =>
          setModelAndBounds st (slope st) (intercept st)
            (computePolynomialRegression2 (dataPoints st)) mnX mxX mnY mxY
      end
  | [] =>
      setModelAndBounds st 0 0 (Poly2Coeffs.mk 0 0 0) (-1) 1 (-1) 1
  end.

(** The lambda [toScreenCoords], lines 388-399. *)
Definition toScreenCoords (st : AppState) (x y : R) : Vector2f :=
  let w := windowW st in
  let h := windowH st in
  let topMargin := 120 in
  let screenX := 50 + (x - minX st) / (maxX st - minX st) * (w - 100) in
  let screenY :=
    h - 50 - (y - minY st) / (maxY st - minY st) * (h - topMargin - 100) in
  (screenX, screenY).

(** The lambda [toDataCoords], lines 401-413. *)
Definition toDataCoords (st : AppState) (sx sy : R) : Vector2f :=
  let w := windowW st in
  let h := windowH st in
  let topMargin := 120 in
  let x := minX st + (sx - 50) / (w - 100) * (maxX st - minX st) in
  let normY := ((h - 50) - sy) / (h - topMargin - 100) in
  let y := minY st + normY * (maxY st - minY st) in
  (x, y).

(** The lambda [updateAxes], lines 415-440: positions only, colours and
    strings are constant. *)
Definition updateAxes (st : AppState) : AppState :=
  let lx := toScreenCoords st (maxX st) 0 in
  let ly := toScreenCoords st 0 (maxY st) in
  setAxes st
    (toScreenCoords st (minX st) 0, toScreenCoords st (maxX st) 0)
    (toScreenCoords st 0 (minY st), toScreenCoords st 0 (maxY st))
    (fst lx - 20, snd lx + 5)
    (fst ly + 5, snd ly).

(** * Removal of the nearest point *)

(** [std::numeric_limits<float>::max()], (2 - 2^-23) * 2^127. *)
Definition FLT_MAX : R := 340282346638528859811704183484516925440.

(** [dataPoints.erase(dataPoints.begin() + i)]. *)
Definition erase (pts : list Point.t) (i : nat) : list Point.t :=
  firstn i pts ++ skipn (S i) pts.

(** The search loop of lines 452-463, from index [i] on, over the points
    not yet visited; [minIndex] is an [int] whose initial value is -1. *)
Fixpoint searchFrom (st : AppState) (mouseXScreen mouseYScreen : R)
    (rest : list Point.t) (i : Z) (minDist : R) (minIndex : Z) : R * Z :=
  match rest with
  | [] => (minDist, minIndex)
  | p :: rest' =>
      let ptScreen := toScreenCoords st (Point.x p) (Point.y p) in
      let dx := fst ptScreen - mouseXScreen in
      let dy := snd ptScreen - mouseYScreen in
      let dist := sqrt (dx * dx + dy * dy) in
      if Rltb dist minDist
      then searchFrom st mouseXScreen mouseYScreen rest' (i + 1) dist i
      else searchFrom st mouseXScreen mouseYScreen rest' (i + 1) minDist minIndex
  end.

Definition nearestSearch (st : AppState) (mouseXScreen mouseYScreen : R) : R * Z :=
  searchFrom st mouseXScreen mouseYScreen (dataPoints st) 0 FLT_MAX (-1).

(** The lambda [removeNearestPoint], lines 446-472. *)
Definition removeNearestPoint (st : AppState) (mouseXScreen mouseYScreen : R)
  : AppState :=
  match dataPoints st with
  | [] => st
  | _ :: _ =>
      let '(minDist, minIndex) := nearestSearch st mouseXScreen mouseYScreen in
      if Rltb minDist 10 && (0 <=? minIndex)%Z
      then
        let st1 := setDataPoints st (erase (dataPoints st) (Z.to_nat minIndex)) in
        let st2 := updateModelAndBounds st1 in
        updateAxes st2
      else st
  end.

(** * The fits with every division checked *)

(** To state that no division of the fits meets a zero divisor, the two
    functions are written once more with [/] replaced by a division that
    stops the computation on a zero divisor. *)
Inductive Outcome (A : Type) : Type :=
| Value (v : A)
| DivisionByZero.
Arguments Value {A} v.
Arguments DivisionByZero {A}.

Definition bind {A B : Type} (m : Outcome A) (k : A -> Outcome B) : Outcome B :=
  match m with
  | Value v => k v
  | DivisionByZero => DivisionByZero
  end.

Notation "v <- m ;; k" := (bind m (fun v => k))
  (at level 61, m at next level, right associativity).

Definition checkedDiv (u v : R) : Outcome R :=
  if Req_dec_T v 0 then DivisionByZero else Value (u / v).

Definition computeLinearRegressionChecked (points : list Point.t)
  : Outcome (R * R) :=
  match points with
  | [] => Value (0, 0)
  | _ :: _ =>
      let '(sumX, sumY) :=
        fold_left (fun '(sX, sY) p => (sX + Point.x p, sY + Point.y p))
                  points (0, 0) in
      meanX <- checkedDiv sumX (INR (length points)) ;;
      meanY <- checkedDiv sumY (INR (length points)) ;;
      let '(numerator, denominator) :=
        fold_left
          (fun '(num, den) p =>
             let dx := Point.x p - meanX in
             let dy := Point.y p - meanY in
             (num + dx * dy, den + dx * dx))
          points (0, 0) in
      slope <- (if Rneqb denominator 0
                then checkedDiv numerator denominator
                else Value 0) ;;
      let intercept := meanY - slope * meanX in
      Value (slope, intercept)
  end.

Definition computePolynomialRegression2Checked (points : list Point.t)
  : Outcome Poly2Coeffs.t :=
  let coeffs := Poly2Coeffs.mk 0 0 0 in
  if (length points <? 3)%nat then Value coeffs
  else
    let s := sumsOf points in
    let n := length points in
    let A := matrixA n s in
    let B := vectorB s in
    let D := det3 A in
    if Rltb (Rabs D) detThreshold then Value coeffs
    else
      let D_c := det3 (replaceColumn A 0 B) in
      let D_b := det3 (replaceColumn A 1 B) in
      let D_a := det3 (replaceColumn A 2 B) in
      c <- checkedDiv D_c D ;;
      b <- checkedDiv D_b D ;;
      a <- checkedDiv D_a D ;;
      Value (Poly2Coeffs.mk a b c).

(** * The vocabulary of the specification *)

(** Σ over a list, written the textbook way. *)
Fixpoint Rsum (l : list R) : R :=
  match l with
  | [] => 0
  | v :: rest => v + Rsum rest
  end.

Definition sumOver (f : Point.t -> R) (points : list Point.t) : R :=
  Rsum (map f points).

(** x̄ and ȳ, the arithmetic means. *)
Definition xbar (points : list Point.t) : R :=
  sumOver Point.x points / INR (length points).
Definition ybar (points : list Point.t) : R :=
  sumOver Point.y points / INR (length points).

(** Σ(xᵢ−x̄)(yᵢ−ȳ) and Σ(xᵢ−x̄)². *)
Definition covXY (points : list Point.t) : R :=
  sumOver (fun p => (Point.x p - xbar points) * (Point.y p - ybar points)) points.
Definition varX (points : list Point.t) : R :=
  sumOver (fun p => (Point.x p - xbar points) * (Point.x p - xbar points)) points.

(** All abscissae are one and the same value. *)
Definition allXIdentical (points : list Point.t) : Prop :=
  forall p q, In p points -> In q points -> Point.x p = Point.x q.

(** The power sums and cross sums of the normal equations. *)
Definition sumX (points : list Point.t) : R := sumOver Point.x points.
Definition sumX2 (points : list Point.t) : R := sumOver (fun p => Point.x p ^ 2) points.
Definition sumX3 (points : list Point.t) : R := sumOver (fun p => Point.x p ^ 3) points.
Definition sumX4 (points : list Point.t) : R := sumOver (fun p => Point.x p ^ 4) points.
Definition sumY (points : list Point.t) : R := sumOver Point.y points.
Definition sumXY (points : list Point.t) : R :=
  sumOver (fun p => Point.x p * Point.y p) points.
Definition sumX2Y (points : list Point.t) : R :=
  sumOver (fun p => Point.x p ^ 2 * Point.y p) points.

(** The determinant of a 3×3 matrix given by its rows, by the rule of Sarrus. *)
Definition sarrus (a11 a12 a13 a21 a22 a23 a31 a32 a33 : R) : R :=
  a11 * a22 * a33 + a12 * a23 * a31 + a13 * a21 * a32
  - a13 * a22 * a31 - a12 * a21 * a33 - a11 * a23 * a32.

(** The determinant of [[n,Sx,Sx2],[Sx,Sx2,Sx3],[Sx2,Sx3,Sx4]]. *)
Definition normalDet (points : list Point.t) : R :=
  sarrus (INR (length points)) (sumX points)  (sumX2 points)
         (sumX points)         (sumX2 points) (sumX3 points)
         (sumX2 points)        (sumX3 points) (sumX4 points).

(** Cramer's rule for the unknowns (c, b, a) with right-hand side
    (Sy, Sxy, Sx2y): the determinant with the unknown's column replaced by
    the right-hand side, over the determinant of the system. *)
Definition cramerC (points : list Point.t) : R :=
  sarrus (sumY points)   (sumX points)  (sumX2 points)
         (sumXY points)  (sumX2 points) (sumX3 points)
         (sumX2Y points) (sumX3 points) (sumX4 points)
  / normalDet points.

Definition cramerB (points : list Point.t) : R :=
  sarrus (INR (length points)) (sumY points)   (sumX2 points)
         (sumX points)         (sumXY points)  (sumX3 points)
         (sumX2 points)        (sumX2Y points) (sumX4 points)
  / normalDet points.

Definition cramerA (points : list Point.t) : R :=
  sarrus (INR (length points)) (sumX points)  (sumY points)
         (sumX points)         (sumX2 points) (sumXY points)
         (sumX2 points)        (sumX3 points) (sumX2Y points)
  / normalDet points.

(** (c, b, a) solves the normal equations of the points. *)
Definition solvesNormalEquations (points : list Point.t) (r : Poly2Coeffs.t) : Prop :=
  let a := Poly2Coeffs.a r in
  let b := Poly2Coeffs.b r in
  let c := Poly2Coeffs.c r in
  INR (length points) * c + sumX points * b + sumX2 points * a = sumY points /\
  sumX points * c + sumX2 points * b + sumX3 points * a = sumXY points /\
  sumX2 points * c + sumX3 points * b + sumX4 points * a = sumX2Y points.

(** The points lie on the straight line y = m·x + k. *)
Definition onLine (m k : R) (points : list Point.t) : Prop :=
  forall p, In p points -> Point.y p = m * Point.x p + k.

(** The abscissae take at most the two values [u] and [v]. *)
Definition xAmong (u v : R) (points : list Point.t) : Prop :=
  forall p, In p points -> Point.x p = u \/ Point.x p = v.


(** One coordinate of the scan of [updateModelAndBounds], taken alone. *)
Definition runningMin (f : Point.t -> R) (points : list Point.t) (m0 : R) : R :=
  fold_left (fun m p => if Rltb (f p) m then f p else m) points m0.
Definition runningMax (f : Point.t -> R) (points : list Point.t) (m0 : R) : R :=
  fold_left (fun m p => if Rgtb (f p) m then f p else m) points m0.

(** The Euclidean distance, in viewport space, from the image of a data
    point to the query point. *)
Definition screenDistance (st : AppState) (qx qy : R) (p : Point.t) : R :=
  let s := toScreenCoords st (Point.x p) (Point.y p) in
  sqrt ((fst s - qx) ^ 2 + (snd s - qy) ^ 2).

(** [p], at index [i], is nearest to the query, and is the first such point
    in insertion order. *)
Definition firstNearest (st : AppState) (qx qy : R)
    (points : list Point.t) (i : nat) (p : Point.t) : Prop :=
  nth_error points i = Some p /\
  (forall j q, nth_error points j = Some q ->
     screenDistance st qx qy p <= screenDistance st qx qy q) /\
  (forall j q, (j < i)%nat -> nth_error points j = Some q ->
     screenDistance st qx qy p < screenDistance st qx qy q).

(** * Reference inputs *)

(** Three points of y = 2x + 1. *)
Definition linePoints : list Point.t :=
  [Point.mk 0 1; Point.mk 1 3; Point.mk 2 5].

(** Three points of y = x². *)
Definition parabolaPoints : list Point.t :=
  [Point.mk 0 0; Point.mk 1 1; Point.mk 2 4].

(** Three points above one abscissa. *)
Definition verticalPoints : list Point.t :=
  [Point.mk 1 0; Point.mk 1 1; Point.mk 1 2].

(** The demo data of [main], lines 268-272. *)
Definition demoPoints : list Point.t :=
  [Point.mk 1 1; Point.mk 2 2; Point.mk 3 1.3; Point.mk 4 3; Point.mk 5 4.5].

(** The state of [main] when the event loop starts: the initial values of
    lines 317-334 followed by the first calls of [updateModelAndBounds]
    (line 385) and [updateAxes] (line 443), for a window of the given size. *)
Definition startState (points : list Point.t) (w h : R) : AppState :=
  updateAxes
    (updateModelAndBounds
       (mkAppState points LINEAR 0 0 (Poly2Coeffs.mk 0 0 0) 0 0 0 0 w h
                   ((0, 0), (0, 0)) ((0, 0), (0, 0)) (0, 0) (0, 0))).

(** The demo data in the 800×600 window of line 276. *)
Definition demoState : AppState := startState demoPoints 800 600.

(** Three points of y = 2x + 1, two of them equal. *)
Definition repeatedPoints : list Point.t :=
  [Point.mk 0 1; Point.mk 1 3; Point.mk 1 3].

(** A single point, in the 800×600 window. *)
Definition singleState : AppState := startState [Point.mk 3 7] 800 600.

(** * The event loop of [main] *)

(** [window.getSize()] after a resize. *)
Definition setWindowSize (st : AppState) (w h : R) : AppState :=
  {| dataPoints := dataPoints st; currentReg := currentReg st;
     slope := slope st; intercept := intercept st; polyCoeffs := polyCoeffs st;
     minX := minX st; maxX := maxX st; minY := minY st; maxY := maxY st;
     windowW := w; windowH := h;
     axisX := axisX st; axisY := axisY st;
     labelX := labelX st; labelY := labelY st |}.

Definition setCurrentReg (st : AppState) (reg : RegressionType) : AppState :=
  {| dataPoints := dataPoints st; currentReg := reg;
     slope := slope st; intercept := intercept st; polyCoeffs := polyCoeffs st;
     minX := minX st; maxX := maxX st; minY := minY st; maxY := maxY st;
     windowW := windowW st; windowH := windowH st;
     axisX := axisX st; axisY := axisY st;
     labelX := labelX st; labelY := labelY st |}.

(** The keys and the mouse buttons that the loop tells apart. *)
Inductive Key : Type := KeyS | KeyL | KeyP | KeyOther.
Inductive Button : Type := ButtonLeft | ButtonRight | ButtonOther.

(** [sf::Event], with the fields the loop reads: the new size of a resize
    (unsigned), the code point of a text entry (unsigned), the key code,
    the button and the position of a click (int). *)
Inductive Event : Type :=
| Closed
| Resized (width height : N)
| TextEntered (unicode : N)
| KeyPressed (code : Key)
| MouseButtonPressed (button : Button) (x y : Z)
| OtherEvent.

(** The left-click branch, lines 566-573. *)
Definition addClickedPoint (st : AppState) (sx sy : R) : AppState :=
  let dataPos := toDataCoords st sx sy in
  let st1 :=
    setDataPoints st (dataPoints st ++ [Point.mk (fst dataPos) (snd dataPos)]) in
  let st2 := updateModelAndBounds st1 in
  updateAxes st2.

(** The key branch for L and P, lines 543-557. *)
Definition switchRegression (st : AppState) (reg : RegressionType) : AppState :=
  let st1 := setCurrentReg st reg in
  let st2 := updateModelAndBounds st1 in
  updateAxes st2.

(** The body of the [pollEvent] loop, lines 478-580, on the state that the
    lambdas share.  A text entry touches only the input line and the
    prediction label, the key S only writes the file, and closing the
    window ends the loop: they leave this state as it is. *)
Definition handleEvent (st : AppState) (event : Event) : AppState :=
  match event with
  | Resized width height =>
      updateAxes (setWindowSize st (IZR (Z.of_N width)) (IZR (Z.of_N height)))
  | KeyPressed KeyL => switchRegression st LINEAR
  | KeyPressed KeyP => switchRegression st POLYNOMIAL2
  | MouseButtonPressed ButtonLeft x y => addClickedPoint st (IZR x) (IZR y)
  | MouseButtonPressed ButtonRight x y => removeNearestPoint st (IZR x) (IZR y)
  | _ => st
  end.

(** The events of one frame, in the order [pollEvent] delivers them. *)
Definition handleEvents (st : AppState) (events : list Event) : AppState :=
  fold_left handleEvent events st.

(** The test of lines 526-527 on [enteredChar]. *)
Definition acceptedChar (enteredChar : ascii) : bool :=
  ((48 <=? N_of_ascii enteredChar)%N && (N_of_ascii enteredChar <=? 57)%N)
  || Ascii.eqb enteredChar "."%char
  || Ascii.eqb enteredChar "-"%char.

(** What a [TextEntered] event does to [userInputX], lines 493-532: Enter
    (13 or 10) reads the line and leaves it, backspace (8) drops the last
    character of a non-empty line, and a code point below 128 is appended
    when it is a digit, a dot or a minus sign. *)
Definition textEntered (userInputX : list ascii) (unicode : N) : list ascii :=
  if (unicode =? 13)%N || (unicode =? 10)%N then userInputX
  else if (unicode =? 8)%N && negb (Nat.eqb (length userInputX) 0)
  then removelast userInputX
  else if (unicode <? 128)%N
  then
    let enteredChar := ascii_of_N unicode in
    if acceptedChar enteredChar then userInputX ++ [enteredChar]
    else userInputX
  else userInputX.

(** The prediction of lines 501-509 for a parsed [xVal]. *)
Definition predict (st : AppState) (xVal : R) : R :=
  match currentReg st with
  | LINEAR => slope st * xVal + intercept st
  | POLYNOMIAL2 => evaluatePoly2 (polyCoeffs st) xVal
  end.

(** Vertex [i] of the curve, lines 643-662, in viewport space. *)
Definition curveVertex (st : AppState) (i : nat) : Vector2f :=
  let segments := 200%nat in
  let t := INR i / INR segments in
  let xVal := minX st + t * (maxX st - minX st) in
  let yVal := predict st xVal in
  toScreenCoords st xVal yVal.

(** * The coordinate maps with every division checked *)

Definition toScreenCoordsChecked (st : AppState) (x y : R) : Outcome Vector2f :=
  let w := windowW st in
  let h := windowH st in
  let topMargin := 120 in
  tx <- checkedDiv (x - minX st) (maxX st - minX st) ;;
  ty <- checkedDiv (y - minY st) (maxY st - minY st) ;;
  Value (50 + tx * (w - 100), h - 50 - ty * (h - topMargin - 100)).

Definition toDataCoordsChecked (st : AppState) (sx sy : R) : Outcome Vector2f :=
  let w := windowW st in
  let h := windowH st in
  let topMargin := 120 in
  qx <- checkedDiv (sx - 50) (w - 100) ;;
  normY <- checkedDiv ((h - 50) - sy) (h - topMargin - 100) ;;
  Value (minX st + qx * (maxX st - minX st),
         minY st + normY * (maxY st - minY st)).

(** * More vocabulary *)

(** The points lie on the parabola y = a·x² + b·x + c. *)
Definition onParabola (a b c : R) (points : list Point.t) : Prop :=
  forall p, In p points -> Point.y p = a * Point.x p ^ 2 + b * Point.x p + c.

(** The sum of the squared residuals of a line and of a parabola. *)
Definition sseLinear (points : list Point.t) (s b : R) : R :=
  sumOver (fun p => (Point.y p - (s * Point.x p + b)) ^ 2) points.
Definition sseQuadratic (points : list Point.t) (coeffs : Poly2Coeffs.t) : R :=
  sumOver (fun p => (Point.y p - evaluatePoly2 coeffs (Point.x p)) ^ 2) points.

(** The state is what the recomputation cascade leaves: the coefficients of
    the active fit are those of the current points, the bounds are proper
    and keep every point at least the padding away from each side, and the
    axes are where [updateAxes] puts them. *)
Definition modelInSync (st : AppState) : Prop :=
  match currentReg st with
  | LINEAR => (slope st, intercept st) = computeLinearRegression (dataPoints st)
  | POLYNOMIAL2 => polyCoeffs st = computePolynomialRegression2 (dataPoints st)
  end.

Definition boundsInSync (st : AppState) : Prop :=
  minX st < maxX st /\ minY st < maxY st /\
  forall p, In p (dataPoints st) ->
    minX st + 1 <= Point.x p <= maxX st - 1 /\
    minY st + 1 <= Point.y p <= maxY st - 1.

Definition axesInSync (st : AppState) : Prop :=
  axisX st = (toScreenCoords st (minX st) 0, toScreenCoords st (maxX st) 0) /\
  axisY st = (toScreenCoords st 0 (minY st), toScreenCoords st 0 (maxY st)).

(** The states of the event loop: the start state of an 800×600 window,
    and what an event makes of such a state.  A left click divides by
    w - 100 and h - 220; it is followed only where neither is zero. *)
Definition clickable (st : AppState) (event : Event) : Prop :=
  match event with
  | MouseButtonPressed ButtonLeft _ _ => windowW st <> 100 /\ windowH st <> 220
  | _ => True
  end.

Inductive reachable : AppState -> Prop :=
| reach_start (points : list Point.t) :
    reachable (startState points 800 600)
| reach_event (st : AppState) (event : Event) :
    reachable st -> clickable st event -> reachable (handleEvent st event).

(** The characters of a decimal number, as the input line takes them. *)
Definition numberChars : list ascii :=
  [ "0"; "1"; "2"; "3"; "4"; "5"; "6"; "7"; "8"; "9"; "."; "-" ]%char.

(** Three more points above the abscissa 1. *)
Definition repeatedPoints_x1 : list Point.t :=
  [Point.mk 1 5; Point.mk 1 (-2); Point.mk 1 9].

(** * The program in binary32 and binary64 *)

(** The fits and the bounds once more, with the arithmetic the compiled
    program has: [float] is IEEE 754 binary32 and [double] is binary64,
    every operation is rounded to the format of its type, to nearest with
    ties to even (no fused multiply-add, no wider intermediate results),
    and overflow and invalid operations give infinities and NaN.  The
    operations are those of the Standard Library's [SpecFloat]; they
    compute. *)
Module Binary.

Definition float : Type := spec_float.
Definition double : Type := spec_float.

(** [+ - * /] on two [float]s and on two [double]s. *)
Definition fadd : float -> float -> float := SFadd 24 128.
Definition fsub : float -> float -> float := SFsub 24 128.
Definition fmul : float -> float -> float := SFmul 24 128.
Definition fdiv : float -> float -> float := SFdiv 24 128.
Definition dadd : double -> double -> double := SFadd 53 1024.
Definition dsub : double -> double -> double := SFsub 53 1024.
Definition dmul : double -> double -> double := SFmul 53 1024.
Definition ddiv : double -> double -> double := SFdiv 53 1024.

(** [<], [>] and [!=]; a comparison with NaN is false, [!=] with NaN true. *)
Definition ltb (u v : spec_float) : bool := SFltb u v.
Definition gtb (u v : spec_float) : bool := SFltb v u.
Definition neqb (u v : spec_float) : bool := negb (SFeqb u v).

(** An integer as a [float] and as a [double], rounded when it has more
    bits than the format holds. *)
Definition ofZ32 (z : Z) : float := binary_normalize 24 128 z 0 false.
Definition ofZ64 (z : Z) : double := binary_normalize 53 1024 z 0 false.

(** [double x = p.x] is exact; [static_cast<float>] of a [double] rounds. *)
Definition toDouble (u : float) : double :=
  match u with
  | S754_finite s m e => binary_normalize 53 1024 (cond_Zopp s (Zpos m)) e s
  | _ => u
  end.

Definition toFloat (u : double) : float :=
  match u with
  | S754_finite s m e => binary_normalize 24 128 (cond_Zopp s (Zpos m)) e s
  | _ => u
  end.

(** [0.f] and [0.0]. *)
Definition zero : spec_float := S754_zero false.

(** The real number a finite [float] or [double] stands for: m·2^e with
    its sign; the zeros stand for 0. *)
Definition realValue (u : spec_float) : R :=
  match u with
  | S754_finite s m e =>
      IZR (cond_Zopp s (Zpos m))
      * (if (0 <=? e)%Z then IZR (2 ^ e) else / IZR (2 ^ (- e)))
  | _ => 0
  end.

Module Point.
Record t : Type := mk { x : float; y : float }.
End Point.

Module Poly2Coeffs.
Record t : Type := mk { a : float; b : float; c : float }.
End Poly2Coeffs.

(** [computeLinearRegression], lines 105-137, in binary32;
    [points.size()] is converted to [float] before the division. *)
Definition computeLinearRegression (points : list Point.t) : float * float :=
  match points with
  | [] => (zero, zero)
  | _ :: _ =>
      let '(sumX, sumY) :=
        fold_left
          (fun '(sX, sY) p => (fadd sX (Point.x p), fadd sY (Point.y p)))
          points (zero, zero) in
      let meanX := fdiv sumX (ofZ32 (Z.of_nat (length points))) in
      let meanY := fdiv sumY (ofZ32 (Z.of_nat (length points))) in
      let '(numerator, denominator) :=
        fold_left
          (fun '(num, den) p =>
             let dx := fsub (Point.x p) meanX in
             let dy := fsub (Point.y p) meanY in
             (fadd num (fmul dx dy), fadd den (fmul dx dx)))
          points (zero, zero) in
      let slope :=
        if neqb denominator zero then fdiv numerator denominator else zero in
      let intercept := fsub meanY (fmul slope meanX) in
      (slope, intercept)
  end.

(** The running sums of lines 161-185, in binary64. *)
Record Sums : Type := mkSums {
  Sx : double; Sy : double; Sx2 : double; Sx3 : double; Sx4 : double;
  Sxy : double; Sx2y : double
}.

Definition addPoint (s : Sums) (p : Point.t) : Sums :=
  let x := toDouble (Point.x p) in
  let y := toDouble (Point.y p) in
  let x2 := dmul x x in
  let x3 := dmul x2 x in
  let x4 := dmul x3 x in
  {| Sx := dadd (Sx s) x;
     Sy := dadd (Sy s) y;
     Sx2 := dadd (Sx2 s) x2;
     Sx3 := dadd (Sx3 s) x3;
     Sx4 := dadd (Sx4 s) x4;
     Sxy := dadd (Sxy s) (dmul x y);
     Sx2y := dadd (Sx2y s) (dmul x2 y) |}.

Definition sumsOf (points : list Point.t) : Sums :=
  fold_left addPoint points (mkSums zero zero zero zero zero zero zero).

Definition Matrix : Type := list (list double).

Definition cell (m : Matrix) (i j : nat) : double := nth j (nth i m []) zero.
Definition setCell (m : Matrix) (i j : nat) (v : double) : Matrix :=
  setNth i (setNth j v (nth i m [])) m.
Definition elt (B : list double) (i : nat) : double := nth i B zero.

(** The lambda [det3], lines 203-207: the three products are rounded, then
    the first two are subtracted and the third is added. *)
Definition det3 (m : Matrix) : double :=
  dadd
    (dsub
       (dmul (cell m 0 0)
             (dsub (dmul (cell m 1 1) (cell m 2 2))
                   (dmul (cell m 1 2) (cell m 2 1))))
       (dmul (cell m 0 1)
             (dsub (dmul (cell m 1 0) (cell m 2 2))
                   (dmul (cell m 1 2) (cell m 2 0)))))
    (dmul (cell m 0 2)
          (dsub (dmul (cell m 1 0) (cell m 2 1))
                (dmul (cell m 1 1) (cell m 2 0)))).

Definition matrixA (n : nat) (s : Sums) : Matrix :=
  [ [ ofZ64 (Z.of_nat n); Sx s;  Sx2 s ];
    [ Sx s;               Sx2 s; Sx3 s ];
    [ Sx2 s;              Sx3 s; Sx4 s ] ].

Definition vectorB (s : Sums) : list double := [ Sy s; Sxy s; Sx2y s ].

Definition replaceColumn (A : Matrix) (j : nat) (B : list double) : Matrix :=
  let A1 := setCell A 0 j (elt B 0) in
  let A2 := setCell A1 1 j (elt B 1) in
  setCell A2 2 j (elt B 2).

(** The literal [1e-12]: the [double] nearest to 10^-12, which is the
    correctly rounded quotient of 1 by 10^12. *)
Definition detThreshold : double := ddiv (ofZ64 1) (ofZ64 1000000000000).

(** The value [D] of line 209. *)
Definition determinant (points : list Point.t) : double :=
  det3 (matrixA (length points) (sumsOf points)).

(** [computePolynomialRegression2], lines 151-249, in binary64 with the
    final casts to [float]. *)
Definition computePolynomialRegression2 (points : list Point.t)
  : Poly2Coeffs.t :=
  let coeffs := Poly2Coeffs.mk zero zero zero in
  if (length points <? 3)%nat then coeffs
  else
    let s := sumsOf points in
    let n := length points in
    let A := matrixA n s in
    let B := vectorB s in
    let D := det3 A in
    if ltb (SFabs D) detThreshold then coeffs
    else
      let D_c := det3 (replaceColumn A 0 B) in
      let D_b := det3 (replaceColumn A 1 B) in
      let D_a := det3 (replaceColumn A 2 B) in
      let c := ddiv D_c D in
      let b := ddiv D_b D in
      let a := ddiv D_a D in
      Poly2Coeffs.mk (toFloat a) (toFloat b) (toFloat c).

(** The locals that [updateModelAndBounds] reads and writes. *)
Record ModelState : Type := mkModelState {
  dataPoints : list Point.t;
  currentReg : RegressionType;
  slope : float;
  intercept : float;
  polyCoeffs : Poly2Coeffs.t;
  minX : float;
  maxX : float;
  minY : float;
  maxY : float
}.

Definition scanStep (acc : float * float * float * float) (p : Point.t)
  : float * float * float * float :=
  let '(mnX, mxX, mnY, mxY) := acc in
  let mnX := if ltb (Point.x p) mnX then Point.x p else mnX in
  let mxX := if gtb (Point.x p) mxX then Point.x p else mxX in
  let mnY := if ltb (Point.y p) mnY then Point.y p else mnY in
  let mxY := if gtb (Point.y p) mxY then Point.y p else mxY in
  (mnX, mxX, mnY, mxY).

(** The lambda [updateModelAndBounds], lines 339-382, in binary32. *)
Definition updateModelAndBounds (st : ModelState) : ModelState :=
  match dataPoints st with
  | front :: _ =>
      let '(mnX, mxX, mnY, mxY) :=
        fold_left scanStep (dataPoints st)
          (Point.x front, Point.x front, Point.y front, Point.y front) in
      let pad := ofZ32 1 in
      let mnX := fsub mnX pad in
      let mxX := fadd mxX pad in
      let mnY := fsub mnY pad in
      let mxY := fadd mxY pad in
      match currentReg st with
      | LINEAR =>
          let '(s, b) := computeLinearRegression (dataPoints st) in
          mkModelState (dataPoints st) (currentReg st) s b (polyCoeffs st)
                       mnX mxX mnY mxY
      | POLYNOMIAL2 =>
          mkModelState (dataPoints st) (currentReg st)
                       (slope st) (intercept st)
                       (computePolynomialRegression2 (dataPoints st))
                       mnX mxX mnY mxY
      end
  | [] =>
      mkModelState (dataPoints st) (currentReg st) zero zero
                   (Poly2Coeffs.mk zero zero zero)
                   (ofZ32 (-1)) (ofZ32 1) (ofZ32 (-1)) (ofZ32 1)
  end.

(** ** Inputs *)

(** A point with integer coordinates; below 2^24 they are exact. *)
Definition point (x y : Z) : Point.t := Point.mk (ofZ32 x) (ofZ32 y).



(** Three points of y = 2x + 1 and three points of y = x². *)
Definition linePoints : list Point.t := [ point 0 1; point 1 3; point 2 5 ].
Definition parabolaPoints : list Point.t := [ point 0 0; point 1 1; point 2 4 ].

(** Three points of y = x − 6000000. *)
Definition farLinePoints : list Point.t :=
  [ point 6000000 0; point 6000001 1; point 6000002 2 ].

(** Three points of y = x² − 2000x + 10^6. *)
Definition farParabolaPoints : list Point.t :=
  [ point 1000 0; point 1001 1; point 1002 4 ].

(** Three points, two of them equal: only two distinct abscissae. *)
Definition singularPoints : list Point.t :=
  [ point 1000 2001; point 1000 2001; point 1001 2003 ].

(** Three points of y = 2x + 1, away from the origin. *)
Definition farColinearPoints : list Point.t :=
  [ point 500 1001; point 501 1003; point 502 1005 ].


End Binary.

(** The points of a binary32 vector as real points. *)
Definition realPoints (points : list Binary.Point.t) : list Point.t :=
  map (fun p => Point.mk (Binary.realValue (Binary.Point.x p))
                         (Binary.realValue (Binary.Point.y p))) points.

(** The same inputs as lists of real points. *)
Definition farLinePoints : list Point.t :=
  [Point.mk 6000000 0; Point.mk 6000001 1; Point.mk 6000002 2].
Definition farParabolaPoints : list Point.t :=
  [Point.mk 1000 0; Point.mk 1001 1; Point.mk 1002 4].
Definition singularPoints : list Point.t :=
  [Point.mk 1000 2001; Point.mk 1000 2001; Point.mk 1001 2003].

(** The normal-equations matrix of [singularPoints], in integers:
    n, Sx, Sx2, Sx3 and Sx4 of the abscissae 1000, 1000, 1001. *)
Definition singularMatrix : list (list Z) :=
  [ [ 3; 3001; 3002001 ];
    [ 3001; 3002001; 3003003001 ];
    [ 3002001; 3003003001; 3004006004001 ] ]%Z.

(** * Comparisons *)

Lemma Rltb_true (u v : R) : Rltb u v = true <-> u < v.
Proof. unfold Rltb; destruct (Rlt_dec u v); split; intros; (easy || lra). Qed.

Lemma Rltb_false (u v : R) : Rltb u v = false <-> v <= u.
Proof. unfold Rltb; destruct (Rlt_dec u v); split; intros; (easy || lra). Qed.

Lemma Rneqb_true (u v : R) : Rneqb u v = true <-> u <> v.
Proof. unfold Rneqb; destruct (Req_dec_T u v); split; intros; easy. Qed.

Lemma Rneqb_false (u v : R) : Rneqb u v = false <-> u = v.
Proof. unfold Rneqb; destruct (Req_dec_T u v); split; intros; easy. Qed.

(** ** Loops as sums *)

Lemma fold_two_sums (f g : Point.t -> R) (points : list Point.t) (a0 b0 : R) :
  fold_left (fun '(a, b) p => (a + f p, b + g p)) points (a0, b0)
  = (a0 + sumOver f points, b0 + sumOver g points).
Proof.
  revert a0 b0; induction points as [|p rest IH]; intros a0 b0; cbn.
  - now rewrite !Rplus_0_r.
  - rewrite IH. unfold sumOver. f_equal; ring.
Qed.

Lemma sumOver_cons (f : Point.t -> R) p points :
  sumOver f (p :: points) = f p + sumOver f points.
Proof. reflexivity. Qed.

Lemma sumOver_const_mul (k : R) (f : Point.t -> R) points :
  sumOver (fun p => k * f p) points = k * sumOver f points.
Proof.
  induction points as [|p rest IH].
  - unfold sumOver; cbn; ring.
  - rewrite !sumOver_cons, IH; ring.
Qed.

Lemma sumOver_plus (f g : Point.t -> R) points :
  sumOver (fun p => f p + g p) points = sumOver f points + sumOver g points.
Proof.
  induction points as [|p rest IH].
  - unfold sumOver; cbn; ring.
  - rewrite !sumOver_cons, IH; ring.
Qed.

Lemma sumOver_ext (f g : Point.t -> R) points :
  (forall p, In p points -> f p = g p) -> sumOver f points = sumOver g points.
Proof.
  induction points as [|p rest IH]; intros H; [reflexivity|].
  rewrite !sumOver_cons, IH, (H p); auto with datatypes.
Qed.

Lemma sumOver_const (k : R) points :
  sumOver (fun _ => k) points = INR (length points) * k.
Proof.
  induction points as [|p rest IH].
  - unfold sumOver; cbn; ring.
  - rewrite sumOver_cons, IH. change (length (p :: rest)) with (S (length rest)).
    rewrite S_INR; ring.
Qed.

Lemma sumOver_nonneg (f : Point.t -> R) points :
  (forall p, In p points -> 0 <= f p) -> 0 <= sumOver f points.
Proof.
  induction points as [|p rest IH]; intros H.
  - unfold sumOver; cbn; lra.
  - rewrite sumOver_cons.
    assert (0 <= f p) by auto with datatypes.
    assert (0 <= sumOver f rest) by auto with datatypes. lra.
Qed.

(** A sum of non-negative terms vanishes only when each term does. *)
Lemma sumOver_zero_terms (f : Point.t -> R) points :
  (forall p, In p points -> 0 <= f p) ->
  sumOver f points = 0 -> forall p, In p points -> f p = 0.
Proof.
  induction points as [|q rest IH]; intros Hpos Hsum p Hin; [easy|].
  rewrite sumOver_cons in Hsum.
  assert (Hq : 0 <= f q) by auto with datatypes.
  assert (Hrest : 0 <= sumOver f rest)
    by (apply sumOver_nonneg; auto with datatypes).
  destruct Hin as [->|Hin]; [lra|].
  apply IH; auto with datatypes. lra.
Qed.

Lemma length_INR_pos (p : Point.t) rest : 0 < INR (length (p :: rest)).
Proof. apply lt_0_INR; cbn; lia. Qed.

(** The value the source computes, with its loops read as sums. *)
Lemma computeLinearRegression_unfold (p : Point.t) (rest : list Point.t) :
  let points := p :: rest in
  computeLinearRegression points
  = (let slope := if Rneqb (varX points) 0
                  then covXY points / varX points else 0 in
     (slope, ybar points - slope * xbar points)).
Proof.
  intros points. unfold computeLinearRegression. subst points.
  rewrite (fold_two_sums Point.x Point.y), !Rplus_0_l.
  fold (xbar (p :: rest)) (ybar (p :: rest)).
  rewrite (fold_two_sums
             (fun q => (Point.x q - xbar (p :: rest)) * (Point.y q - ybar (p :: rest)))
             (fun q => (Point.x q - xbar (p :: rest)) * (Point.x q - xbar (p :: rest)))),
          !Rplus_0_l.
  reflexivity.
Qed.

(** The variance denominator vanishes exactly when all x are identical. *)
Lemma varX_zero_iff (points : list Point.t) :
  points <> [] -> (varX points = 0 <-> allXIdentical points).
Proof.
  intros Hne. destruct points as [|p0 rest]; [easy|]. clear Hne.
  set (points := p0 :: rest).
  assert (Hn : 0 < INR (length points)) by apply length_INR_pos.
  split.
  - intros Hv p q Hp Hq.
    assert (Hz : forall r, In r points ->
                (Point.x r - xbar points) * (Point.x r - xbar points) = 0).
    { apply sumOver_zero_terms; [|exact Hv]. intros r _; cbv beta. apply Rle_0_sqr. }
    assert (Hm : forall r, In r points -> Point.x r = xbar points).
    { intros r Hr. destruct (Rmult_integral _ _ (Hz r Hr)); lra. }
    now rewrite (Hm p Hp), (Hm q Hq).
  - intros Hall. unfold varX.
    assert (Hx : xbar points = Point.x p0).
    { unfold xbar.
      rewrite (sumOver_ext Point.x (fun _ => Point.x p0)).
      - rewrite sumOver_const. field. lra.
      - intros r Hr. apply Hall; [exact Hr | now left]. }
    rewrite (sumOver_ext _ (fun _ => 0)).
    + rewrite sumOver_const; ring.
    + intros r Hr. rewrite Hx, (Hall r p0 Hr); [ring | now left].
Qed.

(** * The quadratic fit *)

Lemma sumsOf_from (points : list Point.t) (s : Sums) :
  fold_left addPoint points s
  = {| Sx := Sx s + sumX points;
       Sy := Sy s + sumY points;
       Sx2 := Sx2 s + sumX2 points;
       Sx3 := Sx3 s + sumX3 points;
       Sx4 := Sx4 s + sumX4 points;
       Sxy := Sxy s + sumXY points;
       Sx2y := Sx2y s + sumX2Y points |}.
Proof.
  revert s; induction points as [|p rest IH]; intros s.
  - destruct s; cbn.
    unfold sumX, sumY, sumX2, sumX3, sumX4, sumXY, sumX2Y, sumOver; cbn.
    f_equal; ring.
  - cbn [fold_left]. rewrite IH.
    unfold sumX, sumY, sumX2, sumX3, sumX4, sumXY, sumX2Y.
    rewrite !sumOver_cons. unfold addPoint; cbn [Sx Sy Sx2 Sx3 Sx4 Sxy Sx2y].
    f_equal; ring.
Qed.

Lemma sumsOf_sums (points : list Point.t) :
  sumsOf points
  = mkSums (sumX points) (sumY points) (sumX2 points) (sumX3 points)
           (sumX4 points) (sumXY points) (sumX2Y points).
Proof.
  unfold sumsOf. rewrite sumsOf_from. cbn [Sx Sy Sx2 Sx3 Sx4 Sxy Sx2y].
  f_equal; ring.
Qed.

Ltac open_det :=
  unfold det3, replaceColumn, setCell, cell, elt, matrixA, vectorB;
  cbn [nth setNth Sx Sy Sx2 Sx3 Sx4 Sxy Sx2y].

(** The cofactor expansion of the source agrees with the rule of Sarrus. *)
Lemma det3_matrixA (points : list Point.t) :
  det3 (matrixA (length points) (sumsOf points)) = normalDet points.
Proof. rewrite sumsOf_sums. open_det. unfold normalDet, sarrus. ring. Qed.

Lemma det3_column0 (points : list Point.t) :
  det3 (replaceColumn (matrixA (length points) (sumsOf points)) 0
                      (vectorB (sumsOf points)))
  = sarrus (sumY points)   (sumX points)  (sumX2 points)
           (sumXY points)  (sumX2 points) (sumX3 points)
           (sumX2Y points) (sumX3 points) (sumX4 points).
Proof. rewrite sumsOf_sums. open_det. unfold sarrus. ring. Qed.

Lemma det3_column1 (points : list Point.t) :
  det3 (replaceColumn (matrixA (length points) (sumsOf points)) 1
                      (vectorB (sumsOf points)))
  = sarrus (INR (length points)) (sumY points)   (sumX2 points)
           (sumX points)         (sumXY points)  (sumX3 points)
           (sumX2 points)        (sumX2Y points) (sumX4 points).
Proof. rewrite sumsOf_sums. open_det. unfold sarrus. ring. Qed.

Lemma det3_column2 (points : list Point.t) :
  det3 (replaceColumn (matrixA (length points) (sumsOf points)) 2
                      (vectorB (sumsOf points)))
  = sarrus (INR (length points)) (sumX points)  (sumY points)
           (sumX points)         (sumX2 points) (sumXY points)
           (sumX2 points)        (sumX3 points) (sumX2Y points).
Proof. rewrite sumsOf_sums. open_det. unfold sarrus. ring. Qed.

(** The three exits of [computePolynomialRegression2]. *)
Lemma computePolynomialRegression2_unfold (points : list Point.t) :
  computePolynomialRegression2 points
  = if (length points <? 3)%nat then Poly2Coeffs.mk 0 0 0
    else if Rltb (Rabs (normalDet points)) detThreshold then Poly2Coeffs.mk 0 0 0
    else Poly2Coeffs.mk (cramerA points) (cramerB points) (cramerC points).
Proof.
  unfold computePolynomialRegression2.
  rewrite det3_matrixA, det3_column0, det3_column1, det3_column2.
  reflexivity.
Qed.

Lemma detThreshold_pos : 0 < detThreshold.
Proof. unfold detThreshold. lra. Qed.

Lemma fewer_than_3 (points : list Point.t) :
  (length points < 3)%nat -> (length points <? 3)%nat = true.
Proof. intros H. now apply Nat.ltb_lt. Qed.

Lemma at_least_3 (points : list Point.t) :
  (3 <= length points)%nat -> (length points <? 3)%nat = false.
Proof. intros H. now apply Nat.ltb_ge. Qed.

(** Cramer's quotients solve the system whenever the determinant is not 0. *)
Lemma cramer_solves (points : list Point.t) :
  normalDet points <> 0 ->
  solvesNormalEquations points
    (Poly2Coeffs.mk (cramerA points) (cramerB points) (cramerC points)).
Proof.
  intros HD. unfold solvesNormalEquations; cbn [Poly2Coeffs.a Poly2Coeffs.b Poly2Coeffs.c].
  unfold cramerA, cramerB, cramerC.
  set (D := normalDet points) in *.
  assert (HDef : D = normalDet points) by reflexivity.
  unfold normalDet in HDef. unfold sarrus in *.
  repeat split; field_simplify_eq; try exact HD; rewrite HDef; ring.
Qed.

Ltac eval_sums :=
  unfold sumX, sumY, sumX2, sumX3, sumX4, sumXY, sumX2Y, sumOver;
  cbn [map Rsum Point.x Point.y length INR].

Lemma parabolaPoints_det : normalDet parabolaPoints = 4.
Proof. unfold normalDet, sarrus, parabolaPoints. eval_sums. lra. Qed.


Lemma small_det_exit (points : list Point.t) :
  Rabs (normalDet points) < detThreshold ->
  computePolynomialRegression2 points = Poly2Coeffs.mk 0 0 0.
Proof.
  intros H. rewrite computePolynomialRegression2_unfold.
  destruct (length points <? 3)%nat; [reflexivity|].
  now replace (Rltb (Rabs (normalDet points)) detThreshold) with true
    by (symmetry; now apply Rltb_true).
Qed.

Lemma regular_exit (points : list Point.t) :
  (3 <= length points)%nat ->
  detThreshold <= Rabs (normalDet points) ->
  computePolynomialRegression2 points
  = Poly2Coeffs.mk (cramerA points) (cramerB points) (cramerC points).
Proof.
  intros Hlen HD. rewrite computePolynomialRegression2_unfold.
  rewrite at_least_3 by exact Hlen.
  now replace (Rltb (Rabs (normalDet points)) detThreshold) with false
    by (symmetry; now apply Rltb_false).
Qed.

Lemma regular_det_nonzero (points : list Point.t) :
  detThreshold <= Rabs (normalDet points) -> normalDet points <> 0.
Proof.
  intros HD Hz. rewrite Hz, Rabs_R0 in HD.
  pose proof detThreshold_pos. lra.
Qed.

(** ** Points on a line *)

Lemma line_sumY (m k : R) (points : list Point.t) :
  onLine m k points ->
  sumY points = m * sumX points + k * INR (length points).
Proof.
  intros Hl. unfold sumY, sumX.
  rewrite (sumOver_ext Point.y (fun p => m * Point.x p + k)) by exact Hl.
  rewrite (sumOver_plus (fun p => m * Point.x p) (fun _ => k)).
  rewrite sumOver_const_mul, sumOver_const. ring.
Qed.

Lemma line_sumXY (m k : R) (points : list Point.t) :
  onLine m k points ->
  sumXY points = m * sumX2 points + k * sumX points.
Proof.
  intros Hl. unfold sumXY, sumX2, sumX.
  rewrite (sumOver_ext _ (fun p => m * Point.x p ^ 2 + k * Point.x p)).
  - rewrite (sumOver_plus (fun p => m * Point.x p ^ 2) (fun p => k * Point.x p)).
    now rewrite !sumOver_const_mul.
  - intros p Hp. rewrite (Hl p Hp). ring.
Qed.

Lemma line_sumX2Y (m k : R) (points : list Point.t) :
  onLine m k points ->
  sumX2Y points = m * sumX3 points + k * sumX2 points.
Proof.
  intros Hl. unfold sumX2Y, sumX3, sumX2.
  rewrite (sumOver_ext _ (fun p => m * Point.x p ^ 3 + k * Point.x p ^ 2)).
  - rewrite (sumOver_plus (fun p => m * Point.x p ^ 3) (fun p => k * Point.x p ^ 2)).
    now rewrite !sumOver_const_mul.
  - intros p Hp. rewrite (Hl p Hp). ring.
Qed.

(** On a line the right-hand side is k·column0 + m·column1, so Cramer's
    quotients are the line itself. *)
Lemma line_cramer (m k : R) (points : list Point.t) :
  onLine m k points -> normalDet points <> 0 ->
  cramerA points = 0 /\ cramerB points = m /\ cramerC points = k.
Proof.
  intros Hl HD. unfold cramerA, cramerB, cramerC.
  rewrite (line_sumY m k), (line_sumXY m k), (line_sumX2Y m k) by exact Hl.
  set (D := normalDet points) in *.
  assert (HDef : D = normalDet points) by reflexivity.
  unfold normalDet in HDef. unfold sarrus in *.
  repeat split; field_simplify_eq; try exact HD; rewrite ?HDef; ring.
Qed.

(** ** At most two distinct abscissae *)

Lemma two_x_sumX2 (u v : R) (points : list Point.t) :
  xAmong u v points ->
  sumX2 points = (u + v) * sumX points - u * v * INR (length points).
Proof.
  intros H. unfold sumX2, sumX.
  rewrite (sumOver_ext _ (fun p => (u + v) * Point.x p + - (u * v))).
  - rewrite (sumOver_plus (fun p => (u + v) * Point.x p) (fun _ => - (u * v))).
    rewrite sumOver_const_mul, sumOver_const. ring.
  - intros p Hp. destruct (H p Hp) as [-> | ->]; ring.
Qed.

Lemma two_x_sumX3 (u v : R) (points : list Point.t) :
  xAmong u v points ->
  sumX3 points = (u + v) * sumX2 points - u * v * sumX points.
Proof.
  intros H. unfold sumX3, sumX2, sumX.
  rewrite (sumOver_ext _ (fun p => (u + v) * Point.x p ^ 2 + - (u * v) * Point.x p)).
  - rewrite (sumOver_plus (fun p => (u + v) * Point.x p ^ 2)
                          (fun p => - (u * v) * Point.x p)).
    rewrite !sumOver_const_mul. ring.
  - intros p Hp. destruct (H p Hp) as [-> | ->]; ring.
Qed.

Lemma two_x_sumX4 (u v : R) (points : list Point.t) :
  xAmong u v points ->
  sumX4 points = (u + v) * sumX3 points - u * v * sumX2 points.
Proof.
  intros H. unfold sumX4, sumX3, sumX2.
  rewrite (sumOver_ext _ (fun p => (u + v) * Point.x p ^ 3 + - (u * v) * Point.x p ^ 2)).
  - rewrite (sumOver_plus (fun p => (u + v) * Point.x p ^ 3)
                          (fun p => - (u * v) * Point.x p ^ 2)).
    rewrite !sumOver_const_mul. ring.
  - intros p Hp. destruct (H p Hp) as [-> | ->]; ring.
Qed.

(** The third column is then a combination of the first two. *)
Lemma two_x_det_zero (u v : R) (points : list Point.t) :
  xAmong u v points -> normalDet points = 0.
Proof.
  intros H. unfold normalDet, sarrus.
  rewrite (two_x_sumX4 u v), (two_x_sumX3 u v), (two_x_sumX2 u v) by exact H.
  ring.
Qed.

Lemma linePoints_det : normalDet linePoints = 4.
Proof. unfold normalDet, sarrus, linePoints. eval_sums. lra. Qed.

Lemma linePoints_onLine : onLine 2 1 linePoints.
Proof.
  intros p Hp. unfold linePoints in Hp. cbn [In] in Hp.
  destruct Hp as [<- | [<- | [<- | []]]]; cbn [Point.x Point.y]; lra.
Qed.

Lemma Rabs_4_regular : detThreshold <= Rabs 4.
Proof. unfold detThreshold. rewrite Rabs_pos_eq; lra. Qed.

(** * The fits never divide by zero *)

Lemma checkedDiv_nonzero (u v : R) : v <> 0 -> checkedDiv u v = Value (u / v).
Proof. intros H. unfold checkedDiv. now destruct (Req_dec_T v 0). Qed.

Lemma computeLinearRegressionChecked_value (points : list Point.t) :
  computeLinearRegressionChecked points = Value (computeLinearRegression points).
Proof.
  destruct points as [|p rest]; [reflexivity|].
  unfold computeLinearRegressionChecked, computeLinearRegression.
  destruct (fold_left _ (p :: rest) (0, 0)) as [sumX' sumY'].
  pose proof (length_INR_pos p rest) as Hn.
  rewrite !checkedDiv_nonzero by lra. cbn [bind].
  destruct (fold_left _ (p :: rest) (0, 0)) as [num den].
  unfold Rneqb. destruct (Req_dec_T den 0) as [Hz|Hnz]; cbn [bind].
  - reflexivity.
  - now rewrite checkedDiv_nonzero.
Qed.

Lemma computePolynomialRegression2Checked_value (points : list Point.t) :
  computePolynomialRegression2Checked points
  = Value (computePolynomialRegression2 points).
Proof.
  unfold computePolynomialRegression2Checked, computePolynomialRegression2.
  destruct (length points <? 3)%nat; [reflexivity|].
  set (D := det3 _).
  destruct (Rltb (Rabs D) detThreshold) eqn:HD; [reflexivity|].
  apply Rltb_false in HD.
  assert (HD0 : D <> 0).
  { intros Hz. rewrite Hz, Rabs_R0 in HD. pose proof detThreshold_pos. lra. }
  now rewrite !checkedDiv_nonzero.
Qed.

(** * Bounds *)

Lemma scan_by_coordinate (points : list Point.t) (a b c d : R) :
  fold_left scanStep points (a, b, c, d)
  = (runningMin Point.x points a, runningMax Point.x points b,
     runningMin Point.y points c, runningMax Point.y points d).
Proof.
  revert a b c d; induction points as [|p rest IH]; intros a b c d.
  - reflexivity.
  - cbn [fold_left scanStep]. rewrite IH. reflexivity.
Qed.

Lemma runningMin_spec (f : Point.t -> R) (points : list Point.t) (m0 : R) :
  let r := runningMin f points m0 in
  r <= m0 /\ (forall p, In p points -> r <= f p) /\
  (r = m0 \/ exists p, In p points /\ f p = r).
Proof.
  revert m0; induction points as [|q rest IH]; intros m0; cbn zeta.
  - unfold runningMin; cbn. repeat split; [lra | easy | now left].
  - unfold runningMin in *; cbn [fold_left].
    destruct (Rltb (f q) m0) eqn:Hlt.
    + apply Rltb_true in Hlt.
      destruct (IH (f q)) as (Hle & Hall & Hatt). cbn zeta in *.
      repeat split.
      * lra.
      * intros p [<-|Hp]; [exact Hle | now apply Hall].
      * right. destruct Hatt as [Heq | (p & Hp & Heq)].
        -- exists q. split; [now left | now symmetry].
        -- exists p. split; [now right | exact Heq].
    + apply Rltb_false in Hlt.
      destruct (IH m0) as (Hle & Hall & Hatt). cbn zeta in *.
      repeat split.
      * exact Hle.
      * intros p [<-|Hp]; [lra | now apply Hall].
      * destruct Hatt as [Heq | (p & Hp & Heq)]; [now left|].
        right. exists p. split; [now right | exact Heq].
Qed.

Lemma runningMax_spec (f : Point.t -> R) (points : list Point.t) (m0 : R) :
  let r := runningMax f points m0 in
  m0 <= r /\ (forall p, In p points -> f p <= r) /\
  (r = m0 \/ exists p, In p points /\ f p = r).
Proof.
  revert m0; induction points as [|q rest IH]; intros m0; cbn zeta.
  - unfold runningMax; cbn. repeat split; [lra | easy | now left].
  - unfold runningMax in *; cbn [fold_left].
    unfold Rgtb in *. destruct (Rltb m0 (f q)) eqn:Hlt.
    + apply Rltb_true in Hlt.
      destruct (IH (f q)) as (Hle & Hall & Hatt). cbn zeta in *.
      repeat split.
      * lra.
      * intros p [<-|Hp]; [exact Hle | now apply Hall].
      * right. destruct Hatt as [Heq | (p & Hp & Heq)].
        -- exists q. split; [now left | now symmetry].
        -- exists p. split; [now right | exact Heq].
    + apply Rltb_false in Hlt.
      destruct (IH m0) as (Hle & Hall & Hatt). cbn zeta in *.
      repeat split.
      * exact Hle.
      * intros p [<-|Hp]; [lra | now apply Hall].
      * destruct Hatt as [Heq | (p & Hp & Heq)]; [now left|].
        right. exists p. split; [now right | exact Heq].
Qed.




(** The bounds that [updateModelAndBounds] leaves, whatever the active fit. *)
Lemma updateModelAndBounds_bounds (st : AppState) :
  let st' := updateModelAndBounds st in
  match dataPoints st with
  | [] => minX st' = -1 /\ maxX st' = 1 /\ minY st' = -1 /\ maxY st' = 1
  | front :: rest =>
      let points := front :: rest in
      minX st' = runningMin Point.x points (Point.x front) - 1 /\
      maxX st' = runningMax Point.x points (Point.x front) + 1 /\
      minY st' = runningMin Point.y points (Point.y front) - 1 /\
      maxY st' = runningMax Point.y points (Point.y front) + 1
  end.
Proof.
  unfold updateModelAndBounds.
  destruct (dataPoints st) as [|front rest]; cbn zeta.
  - cbn. repeat split; reflexivity.
  - rewrite scan_by_coordinate.
    destruct (currentReg st).
    + destruct (computeLinearRegression (front :: rest)) as [s b]. cbn.
      repeat split; reflexivity.
    + cbn. repeat split; reflexivity.
Qed.

Lemma updateModelAndBounds_dataPoints (st : AppState) :
  dataPoints (updateModelAndBounds st) = dataPoints st.
Proof.
  unfold updateModelAndBounds.
  destruct (dataPoints st) as [|front rest] eqn:E; [now cbn|].
  destruct (fold_left _ _ _) as [[[a b] c] d].
  destruct (currentReg st); [destruct (computeLinearRegression _)|]; now cbn.
Qed.

Lemma updateAxes_dataPoints (st : AppState) :
  dataPoints (updateAxes st) = dataPoints st.
Proof. reflexivity. Qed.

(** * The coordinate maps *)

Lemma toData_after_toScreen (st : AppState) (x y : R) :
  minX st <> maxX st -> minY st <> maxY st ->
  windowW st <> 100 -> windowH st <> 220 ->
  toDataCoords st (fst (toScreenCoords st x y)) (snd (toScreenCoords st x y))
  = (x, y).
Proof.
  intros HX HY HW HH. unfold toDataCoords, toScreenCoords. cbn [fst snd].
  f_equal; field; split; intros E; (apply HX + apply HY + apply HW + apply HH); lra.
Qed.

Lemma toScreen_after_toData (st : AppState) (sx sy : R) :
  minX st <> maxX st -> minY st <> maxY st ->
  windowW st <> 100 -> windowH st <> 220 ->
  toScreenCoords st (fst (toDataCoords st sx sy)) (snd (toDataCoords st sx sy))
  = (sx, sy).
Proof.
  intros HX HY HW HH. unfold toDataCoords, toScreenCoords. cbn [fst snd].
  f_equal; field; split; intros E; (apply HX + apply HY + apply HW + apply HH); lra.
Qed.

(** * The nearest-point search *)

Section Search.

Variable st : AppState.
Variables qx qy : R.

Local Abbreviation dist := (screenDistance st qx qy).
Local Abbreviation nearest := (firstNearest st qx qy).

Lemma searchFrom_cons (p : Point.t) (rest : list Point.t)
    (i : Z) (minDist : R) (minIndex : Z) :
  searchFrom st qx qy (p :: rest) i minDist minIndex
  = if Rltb (dist p) minDist
    then searchFrom st qx qy rest (i + 1) (dist p) i
    else searchFrom st qx qy rest (i + 1) minDist minIndex.
Proof.
  cbn [searchFrom]. cbv zeta.
  replace (sqrt _) with (dist p); [reflexivity|].
  unfold screenDistance. cbv zeta. f_equal. ring.
Qed.

(** The loop invariant, read at the exit: either nothing beat the initial
    [minDist], or the loop stopped on the first nearest point. *)
Lemma searchFrom_spec (rest : list Point.t) :
  forall (i : Z) (minDist : R) (minIndex : Z),
    (searchFrom st qx qy rest i minDist minIndex = (minDist, minIndex) /\
     forall q, In q rest -> minDist <= dist q)
    \/
    (exists k p,
       nearest rest k p /\
       searchFrom st qx qy rest i minDist minIndex
       = (dist p, (i + Z.of_nat k)%Z) /\
       dist p < minDist).
Proof.
  induction rest as [|p rest IH]; intros i d0 i0.
  - left. split; [reflexivity | easy].
  - rewrite searchFrom_cons.
    set (dp := dist p).
    destruct (Rltb dp d0) eqn:Hlt.
    + apply Rltb_true in Hlt.
      destruct (IH (i + 1)%Z dp i) as [[Hr Hall] | (k & p' & Hfn & Hr & Hd)].
      * right. exists 0%nat, p. repeat split.
        -- intros [|j] q Hq; cbn in Hq.
           ++ injection Hq as <-. fold dp. lra.
           ++ apply Hall. eapply nth_error_In; eassumption.
        -- intros j q Hj; lia.
        -- rewrite Hr. f_equal. cbn; lia.
        -- exact Hlt.
      * destruct Hfn as (Hnth & Hmin & Hfirst).
        right. exists (S k), p'. repeat split.
        -- exact Hnth.
        -- intros [|j] q Hq; cbn in Hq.
           ++ injection Hq as <-. fold dp. lra.
           ++ eapply Hmin; eassumption.
        -- intros [|j] q Hj Hq; cbn in Hq.
           ++ injection Hq as <-. exact Hd.
           ++ eapply Hfirst; [|eassumption]. lia.
        -- rewrite Hr. f_equal. lia.
        -- lra.
    + apply Rltb_false in Hlt.
      destruct (IH (i + 1)%Z d0 i0) as [[Hr Hall] | (k & p' & Hfn & Hr & Hd)].
      * left. split; [exact Hr|].
        intros q [<-|Hq]; [exact Hlt | now apply Hall].
      * destruct Hfn as (Hnth & Hmin & Hfirst).
        right. exists (S k), p'. repeat split.
        -- exact Hnth.
        -- intros [|j] q Hq; cbn in Hq.
           ++ injection Hq as <-. fold dp. lra.
           ++ eapply Hmin; eassumption.
        -- intros [|j] q Hj Hq; cbn in Hq.
           ++ injection Hq as <-. fold dp. lra.
           ++ eapply Hfirst; [|eassumption]. lia.
        -- rewrite Hr. f_equal. lia.
        -- exact Hd.
Qed.

Lemma firstNearest_unique (points : list Point.t) (i j : nat) (p q : Point.t) :
  nearest points i p -> nearest points j q -> i = j /\ p = q.
Proof.
  intros (Hi & Hmi & Hfi) (Hj & Hmj & Hfj).
  assert (i = j) as ->.
  { destruct (Nat.lt_trichotomy i j) as [Hlt | [Heq | Hgt]]; [|exact Heq|].
    - pose proof (Hfj i p Hlt Hi). pose proof (Hmi j q Hj). lra.
    - pose proof (Hfi j q Hgt Hj). pose proof (Hmj i p Hi). lra. }
  split; [reflexivity | congruence].
Qed.

(** A non-empty vector has a first nearest point: run the loop from a
    distance that the front point beats. *)
Lemma firstNearest_exists (points : list Point.t) :
  points <> [] -> exists i p, nearest points i p.
Proof.
  destruct points as [|p0 rest]; [easy | intros _].
  destruct (searchFrom_spec (p0 :: rest) 0 (dist p0 + 1) (-1))
    as [[_ Hall] | (k & p & Hfn & _)].
  - specialize (Hall p0 (or_introl eq_refl)). lra.
  - now exists k, p.
Qed.

Lemma firstNearest_in_range (points : list Point.t) (i : nat) (p : Point.t) :
  nearest points i p -> (i < length points)%nat /\ In p points.
Proof.
  intros (Hi & _). split.
  - apply nth_error_Some. congruence.
  - eapply nth_error_In; eassumption.
Qed.

Lemma FLT_MAX_above_threshold : 10 < FLT_MAX.
Proof. unfold FLT_MAX. lra. Qed.

(** What the search returns, in terms of the first nearest point. *)
Lemma nearestSearch_spec (i : nat) (p : Point.t) :
  nearest (dataPoints st) i p ->
  (dist p < FLT_MAX -> nearestSearch st qx qy = (dist p, Z.of_nat i)) /\
  (FLT_MAX <= dist p -> nearestSearch st qx qy = (FLT_MAX, (-1)%Z)).
Proof.
  intros Hfn. unfold nearestSearch.
  destruct (searchFrom_spec (dataPoints st) 0 FLT_MAX (-1))
    as [[Hr Hall] | (k & p' & Hfn' & Hr & Hd)].
  - destruct (firstNearest_in_range _ _ _ Hfn) as [_ Hin].
    specialize (Hall p Hin). split; intros H; [lra | exact Hr].
  - destruct (firstNearest_unique _ _ _ _ _ Hfn Hfn') as [<- <-].
    split; intros H; [|lra]. rewrite Hr. f_equal.
Qed.

(** The two exits of [removeNearestPoint] on a non-empty vector. *)
Lemma removal_when_far (i : nat) (p : Point.t) :
  nearest (dataPoints st) i p ->
  10 <= dist p ->
  removeNearestPoint st qx qy = st.
Proof.
  intros Hfn Hfar. unfold removeNearestPoint.
  destruct (dataPoints st) as [|p0 rest] eqn:E; [reflexivity|].
  rewrite <- E in Hfn.
  destruct (nearestSearch_spec i p Hfn) as [Hlt Hge].
  destruct (Rlt_dec (dist p) FLT_MAX) as [H|H].
  - rewrite (Hlt H).
    now replace (Rltb (dist p) 10) with false
      by (symmetry; now apply Rltb_false).
  - rewrite Hge by lra.
    replace (Rltb FLT_MAX 10) with false; [reflexivity|].
    symmetry. apply Rltb_false. pose proof FLT_MAX_above_threshold. lra.
Qed.

Lemma removal_when_near (i : nat) (p : Point.t) :
  nearest (dataPoints st) i p ->
  dist p < 10 ->
  removeNearestPoint st qx qy
  = updateAxes (updateModelAndBounds
                  (setDataPoints st (erase (dataPoints st) i))).
Proof.
  intros Hfn Hnear. unfold removeNearestPoint.
  destruct (firstNearest_in_range _ _ _ Hfn) as [Hlen _].
  destruct (dataPoints st) as [|p0 rest] eqn:E; [cbn in Hlen; lia|].
  rewrite <- E in *.
  destruct (nearestSearch_spec i p Hfn) as [Hlt _].
  pose proof FLT_MAX_above_threshold.
  rewrite Hlt by lra.
  replace (Rltb (dist p) 10) with true
    by (symmetry; now apply Rltb_true).
  replace (0 <=? Z.of_nat i)%Z with true by (symmetry; apply Z.leb_le; lia).
  cbn [andb]. now rewrite Nat2Z.id.
Qed.

End Search.

Lemma erase_length (points : list Point.t) (i : nat) :
  (i < length points)%nat ->
  length (erase points i) = (length points - 1)%nat.
Proof.
  intros Hi. unfold erase.
  rewrite length_app, length_firstn, length_skipn. lia.
Qed.

(** * The reference states *)

Ltac decide_Rltb :=
  repeat match goal with
    | |- context [Rltb ?u ?v] =>
        first [ rewrite (proj2 (Rltb_true u v)) by lra
              | rewrite (proj2 (Rltb_false u v)) by lra ]
    end.

Lemma demoState_dataPoints : dataPoints demoState = demoPoints.
Proof.
  unfold demoState, startState.
  now rewrite updateAxes_dataPoints, updateModelAndBounds_dataPoints.
Qed.

Lemma demoState_bounds :
  minX demoState = 0 /\ maxX demoState = 6 /\
  minY demoState = 0 /\ maxY demoState = 5.5 /\
  windowW demoState = 800 /\ windowH demoState = 600.
Proof.
  unfold demoState, startState.
  match goal with
  | |- context [updateModelAndBounds ?s0] =>
      pose proof (updateModelAndBounds_bounds s0) as H;
      cbv zeta in H; cbn [dataPoints demoPoints] in H;
      set (st := updateModelAndBounds s0) in *
  end.
  destruct H as (H1 & H2 & H3 & H4).
  change (minX (updateAxes st)) with (minX st).
  change (maxX (updateAxes st)) with (maxX st).
  change (minY (updateAxes st)) with (minY st).
  change (maxY (updateAxes st)) with (maxY st).
  rewrite H1, H2, H3, H4.
  unfold runningMin, runningMax, Rgtb, demoPoints.
  cbn [fold_left Point.x Point.y]. decide_Rltb.
  repeat split; try lra.
Qed.

Lemma singleState_dataPoints : dataPoints singleState = [Point.mk 3 7].
Proof.
  unfold singleState, startState.
  now rewrite updateAxes_dataPoints, updateModelAndBounds_dataPoints.
Qed.

(** A point whose image is 10 pixels or more to the right of the query is
    10 pixels or more away from it. *)
Lemma far_to_the_right (st : AppState) (qx qy : R) (p : Point.t) :
  10 <= fst (toScreenCoords st (Point.x p) (Point.y p)) - qx ->
  10 <= screenDistance st qx qy p.
Proof.
  intros H. unfold screenDistance. cbv zeta.
  set (dx := fst _ - qx) in *. set (dy := snd _ - qy).
  rewrite <- (sqrt_square 10) by lra.
  apply sqrt_le_1_alt. nra.
Qed.

Lemma demoState_far_from_origin (p : Point.t) :
  In p (dataPoints demoState) -> 10 <= screenDistance demoState 0 0 p.
Proof.
  rewrite demoState_dataPoints. intros Hp.
  apply far_to_the_right. unfold toScreenCoords. cbn [fst].
  destruct demoState_bounds as (-> & -> & _ & _ & -> & _).
  unfold demoPoints in Hp. cbn [In] in Hp.
  destruct Hp as [<- | [<- | [<- | [<- | [<- | []]]]]]; cbn [Point.x]; lra.
Qed.

Lemma sumOver_abscissa (g : R -> R) (points : list Point.t) :
  sumOver (fun p => g (Point.x p)) points = Rsum (map g (map Point.x points)).
Proof. unfold sumOver. now rewrite map_map. Qed.

Lemma normalDet_abscissae (l l' : list Point.t) :
  map Point.x l = map Point.x l' -> normalDet l = normalDet l'.
Proof.
  intros H. unfold normalDet, sumX, sumX2, sumX3, sumX4.
  rewrite !(sumOver_abscissa (fun x => x ^ 2)),
          !(sumOver_abscissa (fun x => x ^ 3)),
          !(sumOver_abscissa (fun x => x ^ 4)).
  unfold sumOver. rewrite H. f_equal.
  now rewrite <- (length_map Point.x l), <- (length_map Point.x l'), H.
Qed.

(** * Runs of the binary program *)



Lemma binary_quadratic_fit_of_line :
  Binary.determinant Binary.linePoints = Binary.ofZ64 4 /\
  Binary.computePolynomialRegression2 Binary.linePoints
  = Binary.Poly2Coeffs.mk Binary.zero (Binary.ofZ32 2) (Binary.ofZ32 1).
Proof. split; vm_compute; reflexivity. Qed.


(** The two exits of the quadratic fit, on the list and on the
    determinant as computed. *)
Lemma binary_small_list (points : list Binary.Point.t) :
  (length points < 3)%nat ->
  Binary.computePolynomialRegression2 points
  = Binary.Poly2Coeffs.mk Binary.zero Binary.zero Binary.zero.
Proof.
  intros H. unfold Binary.computePolynomialRegression2.
  now replace (length points <? 3)%nat with true
    by (symmetry; apply Nat.ltb_lt; exact H).
Qed.

Lemma binary_small_det (points : list Binary.Point.t) :
  Binary.ltb (SFabs (Binary.determinant points)) Binary.detThreshold = true ->
  Binary.computePolynomialRegression2 points
  = Binary.Poly2Coeffs.mk Binary.zero Binary.zero Binary.zero.
Proof.
  intros H. unfold Binary.computePolynomialRegression2.
  destruct (length points <? 3)%nat; [reflexivity|].
  cbv zeta. unfold Binary.determinant in H. now rewrite H.
Qed.



(** The determinant the program tests is built from the abscissae alone,
    in binary64 too. *)
Lemma binary_sums_abscissae (l1 l2 : list Binary.Point.t) :
  map Binary.Point.x l1 = map Binary.Point.x l2 ->
  forall s1 s2 : Binary.Sums,
    Binary.Sx s1 = Binary.Sx s2 -> Binary.Sx2 s1 = Binary.Sx2 s2 ->
    Binary.Sx3 s1 = Binary.Sx3 s2 -> Binary.Sx4 s1 = Binary.Sx4 s2 ->
    let r1 := fold_left Binary.addPoint l1 s1 in
    let r2 := fold_left Binary.addPoint l2 s2 in
    Binary.Sx r1 = Binary.Sx r2 /\ Binary.Sx2 r1 = Binary.Sx2 r2 /\
    Binary.Sx3 r1 = Binary.Sx3 r2 /\ Binary.Sx4 r1 = Binary.Sx4 r2.
Proof.
  revert l2. induction l1 as [|p1 l1 IH]; intros [|p2 l2] E; try discriminate.
  - intros s1 s2 H1 H2 H3 H4. cbn. auto.
  - injection E as Ex El. intros s1 s2 H1 H2 H3 H4. cbn [fold_left].
    apply (IH l2 El); unfold Binary.addPoint; cbn; rewrite Ex; congruence.
Qed.

Lemma binary_determinant_abscissae (points other : list Binary.Point.t) :
  map Binary.Point.x other = map Binary.Point.x points ->
  Binary.determinant other = Binary.determinant points.
Proof.
  intros E. unfold Binary.determinant.
  assert (Hlen : length other = length points).
  { rewrite <- (length_map Binary.Point.x other), E. apply length_map. }
  rewrite Hlen.
  destruct (binary_sums_abscissae other points E
              (Binary.mkSums Binary.zero Binary.zero Binary.zero Binary.zero
                             Binary.zero Binary.zero Binary.zero)
              (Binary.mkSums Binary.zero Binary.zero Binary.zero Binary.zero
                             Binary.zero Binary.zero Binary.zero)
              eq_refl eq_refl eq_refl eq_refl) as (H1 & H2 & H3 & H4).
  unfold Binary.sumsOf, Binary.matrixA. rewrite H1, H2, H3, H4. reflexivity.
Qed.

(** * Theorems *)





(** Over exact arithmetic both early exits return {0,0,0}, and the run
    with checked divisions ends with that value. *)
Lemma exact_degenerate_exits (points : list Point.t) :
  (length points < 3)%nat \/
  ((3 <= length points)%nat /\ Rabs (normalDet points) < detThreshold) ->
  computePolynomialRegression2 points = Poly2Coeffs.mk 0 0 0 /\
  computePolynomialRegression2Checked points = Value (Poly2Coeffs.mk 0 0 0).
Proof.
  intros H.
  assert (Hz : computePolynomialRegression2 points = Poly2Coeffs.mk 0 0 0).
  { destruct H as [Hlt | [_ HD]].
    - rewrite computePolynomialRegression2_unfold.
      now rewrite fewer_than_3.
    - now apply small_det_exit. }
  split; [exact Hz|].
  now rewrite computePolynomialRegression2Checked_value, Hz.
Qed.

Lemma exact_degenerate_exits_on_inputs :
  (computePolynomialRegression2 [Point.mk 0 0; Point.mk 1 1]
   = Poly2Coeffs.mk 0 0 0 /\
   computePolynomialRegression2Checked [Point.mk 0 0; Point.mk 1 1]
   = Value (Poly2Coeffs.mk 0 0 0)) /\
  (computePolynomialRegression2 verticalPoints = Poly2Coeffs.mk 0 0 0 /\
   computePolynomialRegression2Checked verticalPoints
   = Value (Poly2Coeffs.mk 0 0 0)).
Proof.
  split.
  - apply exact_degenerate_exits. left. cbn. lia.
  - apply exact_degenerate_exits. right. split.
    + cbn. lia.
    + replace (normalDet verticalPoints) with 0.
      * rewrite Rabs_R0. exact detThreshold_pos.
      * unfold normalDet, sarrus, verticalPoints. eval_sums. lra.
Defined.

(** C4, as stated, fails: the three points (0,1), (1,3), (2,5) lie on
    y = 2x + 1, their normal-equations determinant is 4, and the fit is
    a = 0, b = 2, c = 1. *)
Lemma colinear_points_are_fitted :
  (3 <= length linePoints)%nat /\
  onLine 2 1 linePoints /\
  det3 (matrixA (length linePoints) (sumsOf linePoints)) = 4 /\
  ~ Rabs (det3 (matrixA (length linePoints) (sumsOf linePoints))) < detThreshold /\
  computePolynomialRegression2 linePoints = Poly2Coeffs.mk 0 2 1 /\
  computePolynomialRegression2 linePoints <> Poly2Coeffs.mk 0 0 0.
Proof.
  assert (Hfit : computePolynomialRegression2 linePoints = Poly2Coeffs.mk 0 2 1).
  { rewrite regular_exit.
    - destruct (line_cramer 2 1 linePoints linePoints_onLine) as (-> & -> & ->).
      + rewrite linePoints_det. lra.
      + reflexivity.
    - cbn. lia.
    - rewrite linePoints_det. exact Rabs_4_regular. }
  repeat split.
  - cbn. lia.
  - exact linePoints_onLine.
  - rewrite det3_matrixA. exact linePoints_det.
  - rewrite det3_matrixA, linePoints_det. pose proof Rabs_4_regular. lra.
  - exact Hfit.
  - rewrite Hfit. intros E. injection E as E. lra.
Qed.

(** C4, amended. For 3 or more points on a line y = m·x + k the
    determinant of the normal-equations matrix is fixed by the abscissae
    alone: any vector with the same x, point by point, has the same
    determinant, over exact arithmetic and as the program computes it in
    binary64.  Over exact arithmetic, when its absolute value is at least
    1e-12 the fit is the line itself, a = 0, b = m, c = k; when it is below
    1e-12 the fit is {0,0,0}, and this is the case whenever the abscissae
    take at most two distinct values, where the determinant is exactly 0.
    In binary64, as the program runs, the points (0,1), (1,3), (2,5) have
    D = 4 and the fit a = 0, b = 2, c = 1. *)
Theorem computePolynomialRegression2_on_line :
  (forall (points : list Point.t) (m k : R),
     (3 <= length points)%nat ->
     onLine m k points ->
     (forall other, map Point.x other = map Point.x points ->
                    normalDet other = normalDet points) /\
     (detThreshold <= Rabs (normalDet points) ->
      computePolynomialRegression2 points = Poly2Coeffs.mk 0 m k) /\
     (Rabs (normalDet points) < detThreshold ->
      computePolynomialRegression2 points = Poly2Coeffs.mk 0 0 0) /\
     (forall u v, xAmong u v points ->
      normalDet points = 0 /\
      computePolynomialRegression2 points = Poly2Coeffs.mk 0 0 0)) /\
  (forall points other : list Binary.Point.t,
     map Binary.Point.x other = map Binary.Point.x points ->
     Binary.determinant other = Binary.determinant points) /\
  Binary.determinant Binary.linePoints = Binary.ofZ64 4 /\
  Binary.computePolynomialRegression2 Binary.linePoints
  = Binary.Poly2Coeffs.mk Binary.zero (Binary.ofZ32 2) (Binary.ofZ32 1).
Proof.
  split; [|split; [exact binary_determinant_abscissae
                  |exact binary_quadratic_fit_of_line]].
  intros points m k Hlen Hl. split; [|split; [|split]].
  - intros other E. now apply normalDet_abscissae.
  - intros HD. rewrite (regular_exit points Hlen HD).
    destruct (line_cramer m k points Hl (regular_det_nonzero points HD))
      as (-> & -> & ->).
    reflexivity.
  - apply small_det_exit.
  - intros u v Hx. split.
    + now apply (two_x_det_zero u v).
    + apply small_det_exit. rewrite (two_x_det_zero u v) by assumption.
      rewrite Rabs_R0. exact detThreshold_pos.
Qed.

Lemma computePolynomialRegression2_on_line_witness :
  computePolynomialRegression2 linePoints = Poly2Coeffs.mk 0 2 1 /\
  computePolynomialRegression2 repeatedPoints = Poly2Coeffs.mk 0 0 0.
Proof.
  split.
  - apply (proj1 computePolynomialRegression2_on_line linePoints 2 1).
    + cbn. lia.
    + exact linePoints_onLine.
    + rewrite linePoints_det. exact Rabs_4_regular.
  - apply (proj1 computePolynomialRegression2_on_line repeatedPoints 2 1)
      with (u := 0) (v := 1).
    + cbn. lia.
    + intros p Hp. unfold repeatedPoints in Hp. cbn [In] in Hp.
      destruct Hp as [<- | [<- | [<- | []]]]; cbn [Point.x Point.y]; lra.
    + intros p Hp. unfold repeatedPoints in Hp. cbn [In] in Hp.
      destruct Hp as [<- | [<- | [<- | []]]]; cbn [Point.x]; auto.
Defined.

(** C5. When minX < maxX, minY < maxY, the window width is not 100 and its
    height is not 220, [toScreenCoords] and [toDataCoords] are inverse to
    each other: mapping a data point to the viewport and back returns the
    point, and mapping a viewport point to data space and back returns it. *)
Theorem coordinate_maps_inverse (st : AppState) :
  minX st < maxX st -> minY st < maxY st ->
  windowW st <> 100 -> windowH st <> 220 ->
  (forall x y,
     let s := toScreenCoords st x y in
     toDataCoords st (fst s) (snd s) = (x, y)) /\
  (forall sx sy,
     let d := toDataCoords st sx sy in
     toScreenCoords st (fst d) (snd d) = (sx, sy)).
Proof.
  intros HX HY HW HH.
  assert (minX st <> maxX st) by lra.
  assert (minY st <> maxY st) by lra.
  split; intros u v; cbv zeta.
  - now apply toData_after_toScreen.
  - now apply toScreen_after_toData.
Qed.

Lemma coordinate_maps_inverse_witness :
  (forall x y,
     let s := toScreenCoords demoState x y in
     toDataCoords demoState (fst s) (snd s) = (x, y)) /\
  (forall sx sy,
     let d := toDataCoords demoState sx sy in
     toScreenCoords demoState (fst d) (snd d) = (sx, sy)).
Proof.
  destruct demoState_bounds as (H1 & H2 & H3 & H4 & H5 & H6).
  apply (coordinate_maps_inverse demoState).
  - rewrite H1, H2. lra.
  - rewrite H3, H4. lra.
  - rewrite H5. lra.
  - rewrite H6. lra.
Defined.





(** C8. A removal request on an empty vector, or one whose search ends
    with a distance of 10 or more or without an index, changes nothing;
    a removal that does change the state erases the element at an index
    below the current size, and the vector shrinks by one. *)
Theorem removeNearestPoint_noop_or_valid_erase (st : AppState) (qx qy : R) :
  let st' := removeNearestPoint st qx qy in
  (dataPoints st = [] -> st' = st) /\
  (forall d j, nearestSearch st qx qy = (d, j) ->
               10 <= d \/ (j < 0)%Z -> st' = st) /\
  (st' = st \/
   exists i,
     (i < length (dataPoints st))%nat /\
     snd (nearestSearch st qx qy) = Z.of_nat i /\
     dataPoints st' = erase (dataPoints st) i /\
     length (dataPoints st') = (length (dataPoints st) - 1)%nat).
Proof.
  cbv zeta. repeat split.
  - intros E. unfold removeNearestPoint. now rewrite E.
  - intros d j Hs Hno. unfold removeNearestPoint.
    destruct (dataPoints st); [reflexivity|]. rewrite Hs.
    destruct Hno as [Hd | Hj].
    + now replace (Rltb d 10) with false by (symmetry; now apply Rltb_false).
    + replace (0 <=? j)%Z with false by (symmetry; apply Z.leb_gt; lia).
      now rewrite andb_false_r.
  - destruct (dataPoints st) as [|p0 rest] eqn:E.
    + left. unfold removeNearestPoint. now rewrite E.
    + rewrite <- E.
      destruct (firstNearest_exists st qx qy (dataPoints st)) as (i & p & Hfn);
        [now rewrite E|].
      destruct (Rlt_dec (screenDistance st qx qy p) 10) as [Hnear | Hfar].
      * right. exists i.
        destruct (firstNearest_in_range _ _ _ _ _ _ Hfn) as [Hi _].
        destruct (nearestSearch_spec st qx qy i p Hfn) as [Hs _].
        pose proof FLT_MAX_above_threshold.
        rewrite Hs by lra.
        rewrite (removal_when_near st qx qy i p Hfn Hnear).
        rewrite updateAxes_dataPoints, updateModelAndBounds_dataPoints.
        cbn [dataPoints setDataPoints snd].
        repeat split; [exact Hi | now apply erase_length].
      * left. apply (removal_when_far st qx qy i p Hfn). lra.
Qed.

Lemma removeNearestPoint_noop_or_valid_erase_witness :
  removeNearestPoint (startState [] 800 600) 400 300 = startState [] 800 600.
Proof.
  apply (removeNearestPoint_noop_or_valid_erase (startState [] 800 600) 400 300).
  reflexivity.
Defined.

(** C9. No division of the two fits meets a zero divisor: run with checked
    divisions, [computeLinearRegression] and [computePolynomialRegression2]
    end with a value, the value of the unchecked run, on every input. *)
Theorem fits_never_divide_by_zero (points : list Point.t) :
  computeLinearRegressionChecked points
  = Value (computeLinearRegression points) /\
  computePolynomialRegression2Checked points
  = Value (computePolynomialRegression2 points).
Proof.
  split.
  - apply computeLinearRegressionChecked_value.
  - apply computePolynomialRegression2Checked_value.
Qed.

(** C10. When no point is strictly nearer than 10 pixels to the query,
    [removeNearestPoint] leaves the whole state as it was: the points, the
    bounds, the linear and the quadratic coefficients, and the axes. *)
Theorem removeNearestPoint_miss_keeps_state (st : AppState) (qx qy : R) :
  (forall p, In p (dataPoints st) -> ~ screenDistance st qx qy p < 10) ->
  let st' := removeNearestPoint st qx qy in
  st' = st /\
  dataPoints st' = dataPoints st /\
  (minX st', maxX st', minY st', maxY st') = (minX st, maxX st, minY st, maxY st) /\
  (slope st', intercept st') = (slope st, intercept st) /\
  polyCoeffs st' = polyCoeffs st.
Proof.
  intros Hfar. cbv zeta.
  assert (E : removeNearestPoint st qx qy = st).
  { destruct (dataPoints st) as [|p0 rest] eqn:Hpts.
    - unfold removeNearestPoint. now rewrite Hpts.
    - destruct (firstNearest_exists st qx qy (dataPoints st)) as (i & p & Hfn);
        [now rewrite Hpts|].
      rewrite <- Hpts in Hfar.
      destruct (firstNearest_in_range _ _ _ _ _ _ Hfn) as [_ Hin].
      apply (removal_when_far st qx qy i p Hfn).
      specialize (Hfar p Hin). lra. }
  rewrite E. repeat split; reflexivity.
Qed.

Lemma removeNearestPoint_miss_keeps_state_witness :
  removeNearestPoint demoState 0 0 = demoState.
Proof.
  apply (removeNearestPoint_miss_keeps_state demoState 0 0).
  intros p Hp. pose proof (demoState_far_from_origin p Hp). lra.
Defined.

(** * More on the fits *)

(** ** Order of the points *)

Lemma sumOver_perm (f : Point.t -> R) (l l' : list Point.t) :
  Permutation l l' -> sumOver f l = sumOver f l'.
Proof.
  induction 1 as [|p l l' _ IH|p q l|l l' l'' _ IH1 _ IH2].
  - reflexivity.
  - now rewrite !sumOver_cons, IH.
  - rewrite !sumOver_cons. ring.
  - now rewrite IH1.
Qed.

Lemma xbar_perm (l l' : list Point.t) : Permutation l l' -> xbar l = xbar l'.
Proof.
  intros H. unfold xbar.
  now rewrite (sumOver_perm _ _ _ H), (Permutation_length H).
Qed.

Lemma ybar_perm (l l' : list Point.t) : Permutation l l' -> ybar l = ybar l'.
Proof.
  intros H. unfold ybar.
  now rewrite (sumOver_perm _ _ _ H), (Permutation_length H).
Qed.

Lemma varX_perm (l l' : list Point.t) : Permutation l l' -> varX l = varX l'.
Proof.
  intros H. unfold varX. rewrite (xbar_perm _ _ H). now apply sumOver_perm.
Qed.

Lemma covXY_perm (l l' : list Point.t) : Permutation l l' -> covXY l = covXY l'.
Proof.
  intros H. unfold covXY. rewrite (xbar_perm _ _ H), (ybar_perm _ _ H).
  now apply sumOver_perm.
Qed.

Lemma computeLinearRegression_perm (l l' : list Point.t) :
  Permutation l l' -> computeLinearRegression l = computeLinearRegression l'.
Proof.
  intros H. destruct l as [|p rest].
  - apply Permutation_nil in H. now subst.
  - destruct l' as [|p' rest'].
    + apply Permutation_sym, Permutation_nil in H. discriminate.
    + rewrite (computeLinearRegression_unfold p rest),
              (computeLinearRegression_unfold p' rest'). cbv zeta.
      now rewrite (varX_perm _ _ H), (covXY_perm _ _ H),
                  (xbar_perm _ _ H), (ybar_perm _ _ H).
Qed.

Lemma normalDet_perm (l l' : list Point.t) :
  Permutation l l' -> normalDet l = normalDet l'.
Proof.
  intros H. unfold normalDet, sumX, sumX2, sumX3, sumX4.
  now rewrite !(sumOver_perm _ _ _ H), (Permutation_length H).
Qed.

Lemma computePolynomialRegression2_perm (l l' : list Point.t) :
  Permutation l l' ->
  computePolynomialRegression2 l = computePolynomialRegression2 l'.
Proof.
  intros H. rewrite !computePolynomialRegression2_unfold.
  rewrite (normalDet_perm _ _ H), (Permutation_length H).
  unfold cramerA, cramerB, cramerC.
  rewrite (normalDet_perm _ _ H), (Permutation_length H).
  unfold sumX, sumX2, sumX3, sumX4, sumY, sumXY, sumX2Y.
  now rewrite !(sumOver_perm _ _ _ H).
Qed.

(** ** The line through the data *)

Lemma sumOver_centered (points : list Point.t) :
  points <> [] ->
  sumOver (fun p => Point.x p - xbar points) points = 0 /\
  sumOver (fun p => Point.y p - ybar points) points = 0.
Proof.
  intros Hne. destruct points as [|p0 rest]; [easy|].
  pose proof (length_INR_pos p0 rest) as Hn.
  set (points := p0 :: rest) in *.
  split.
  - rewrite (sumOver_plus Point.x (fun _ => - xbar points)), sumOver_const.
    unfold xbar. field. lra.
  - rewrite (sumOver_plus Point.y (fun _ => - ybar points)), sumOver_const.
    unfold ybar. field. lra.
Qed.

(** With all x identical the covariance vanishes with the variance. *)
Lemma varX_zero_covXY (points : list Point.t) :
  varX points = 0 -> covXY points = 0.
Proof.
  intros Hv. unfold covXY.
  rewrite (sumOver_ext _ (fun _ => 0)).
  - rewrite sumOver_const. ring.
  - intros p Hp.
    assert (Hz : (Point.x p - xbar points) * (Point.x p - xbar points) = 0).
    { apply (sumOver_zero_terms
               (fun q => (Point.x q - xbar points) * (Point.x q - xbar points))
               points); [|exact Hv|exact Hp].
      intros q _; cbv beta. apply Rle_0_sqr. }
    destruct (Rmult_integral _ _ Hz) as [E|E]; rewrite E; ring.
Qed.

(** The slope the code returns satisfies slope·Σ(x−x̄)² = Σ(x−x̄)(y−ȳ), in
    the regular and in the fallback case. *)
Lemma slope_equation (points : list Point.t) :
  points <> [] ->
  fst (computeLinearRegression points) * varX points = covXY points /\
  snd (computeLinearRegression points)
  = ybar points - fst (computeLinearRegression points) * xbar points.
Proof.
  intros Hne. destruct points as [|p rest]; [easy|].
  rewrite (computeLinearRegression_unfold p rest). cbv zeta.
  destruct (Rneqb (varX (p :: rest)) 0) eqn:E; cbn [fst snd].
  - apply Rneqb_true in E. split; [now field | reflexivity].
  - apply Rneqb_false in E. split; [|reflexivity].
    rewrite E, (varX_zero_covXY _ E). ring.
Qed.

Lemma sum_square_shift (r d : Point.t -> R) (points : list Point.t) :
  sumOver (fun p => (r p + d p) ^ 2) points
  = sumOver (fun p => r p ^ 2) points
    + 2 * sumOver (fun p => r p * d p) points
    + sumOver (fun p => d p ^ 2) points.
Proof.
  induction points as [|p rest IH].
  - unfold sumOver; cbn; ring.
  - rewrite !sumOver_cons, IH. ring.
Qed.

Lemma sumOver_square_nonneg (d : Point.t -> R) (points : list Point.t) :
  0 <= sumOver (fun p => d p ^ 2) points.
Proof. apply sumOver_nonneg. intros p _. apply pow2_ge_0. Qed.

(** The residuals of the returned line are orthogonal to 1 and to x − x̄. *)
Lemma linear_residuals_orthogonal (points : list Point.t) :
  points <> [] ->
  let s := fst (computeLinearRegression points) in
  let b := snd (computeLinearRegression points) in
  sumOver (fun p => Point.y p - (s * Point.x p + b)) points = 0 /\
  sumOver (fun p => (Point.y p - (s * Point.x p + b))
                    * (Point.x p - xbar points)) points = 0.
Proof.
  intros Hne s b.
  destruct (slope_equation points Hne) as [Hs Hb]. fold s b in Hs, Hb.
  destruct (sumOver_centered points Hne) as [Hcx Hcy].
  split.
  - rewrite (sumOver_ext _
      (fun p => (Point.y p - ybar points)
                + - s * (Point.x p - xbar points))).
    + rewrite (sumOver_plus (fun p => Point.y p - ybar points)
                            (fun p => - s * (Point.x p - xbar points))).
      rewrite sumOver_const_mul, Hcx, Hcy. ring.
    + intros p _. rewrite Hb. ring.
  - rewrite (sumOver_ext _
      (fun p => (Point.x p - xbar points) * (Point.y p - ybar points)
                + - s * ((Point.x p - xbar points) * (Point.x p - xbar points)))).
    + rewrite (sumOver_plus
                 (fun p => (Point.x p - xbar points) * (Point.y p - ybar points))
                 (fun p => - s * ((Point.x p - xbar points)
                                  * (Point.x p - xbar points)))).
      rewrite sumOver_const_mul. fold (covXY points) (varX points).
      rewrite <- Hs. ring.
    + intros p _. rewrite Hb. ring.
Qed.

Lemma linear_least_squares (points : list Point.t) (s' b' : R) :
  points <> [] ->
  sseLinear points (fst (computeLinearRegression points))
                   (snd (computeLinearRegression points))
  <= sseLinear points s' b'.
Proof.
  intros Hne.
  destruct (linear_residuals_orthogonal points Hne) as [H1 Hx].
  set (s := fst (computeLinearRegression points)) in *.
  set (b := snd (computeLinearRegression points)) in *.
  cbv zeta in H1, Hx.
  pose (r := fun p => Point.y p - (s * Point.x p + b)).
  pose (d := fun p => (s - s') * (Point.x p - xbar points)
                      + ((s - s') * xbar points + (b - b'))).
  assert (H1' : sumOver r points = 0) by exact H1.
  assert (Hx' : sumOver (fun p => r p * (Point.x p - xbar points)) points = 0)
    by exact Hx.
  unfold sseLinear.
  rewrite (sumOver_ext (fun p => (Point.y p - (s' * Point.x p + b')) ^ 2)
                       (fun p => (r p + d p) ^ 2))
    by (intros p _; unfold r, d; ring).
  rewrite sum_square_shift.
  assert (Hrd : sumOver (fun p => r p * d p) points = 0).
  { rewrite (sumOver_ext _
       (fun p => (s - s') * (r p * (Point.x p - xbar points))
                 + ((s - s') * xbar points + (b - b')) * r p))
      by (intros p _; unfold d; ring).
    rewrite (sumOver_plus
               (fun p => (s - s') * (r p * (Point.x p - xbar points)))
               (fun p => ((s - s') * xbar points + (b - b')) * r p)).
    rewrite !sumOver_const_mul, H1', Hx'. ring. }
  rewrite Hrd. pose proof (sumOver_square_nonneg d points).
  change (sumOver (fun p => (Point.y p - (s * Point.x p + b)) ^ 2) points)
    with (sumOver (fun p => r p ^ 2) points).
  lra.
Qed.

(** Points of a line whose abscissae are not all the same. *)
Lemma line_recovered (m k : R) (points : list Point.t) :
  onLine m k points -> ~ allXIdentical points ->
  computeLinearRegression points = (m, k).
Proof.
  intros Hl Hx.
  destruct points as [|p0 rest]; [exfalso; apply Hx; intros p q []|].
  set (points := p0 :: rest) in *.
  assert (Hne : points <> []) by discriminate.
  assert (Hv : varX points <> 0).
  { intros E. apply Hx. now apply (varX_zero_iff points Hne). }
  pose proof (length_INR_pos p0 rest) as Hn. fold points in Hn.
  assert (Hy : ybar points = m * xbar points + k).
  { unfold ybar, xbar. fold (sumY points) (sumX points).
    rewrite (line_sumY m k points Hl). field. lra. }
  assert (Hc : covXY points = m * varX points).
  { unfold covXY, varX. rewrite <- sumOver_const_mul.
    apply sumOver_ext. intros p Hp. rewrite Hy, (Hl p Hp). ring. }
  pose proof (computeLinearRegression_unfold p0 rest) as Hu.
  cbv zeta in Hu. fold points in Hu. rewrite Hu.
  replace (Rneqb (varX points) 0) with true
    by (symmetry; now apply Rneqb_true).
  rewrite Hc, Hy. f_equal; field; exact Hv.
Qed.

(** ** The parabola through the data *)

Lemma sumOver_combination (f0 f1 f2 f3 : Point.t -> R) (a b c : R)
    (points : list Point.t) :
  sumOver (fun p => f0 p + a * f1 p + b * f2 p + c * f3 p) points
  = sumOver f0 points + a * sumOver f1 points
    + b * sumOver f2 points + c * sumOver f3 points.
Proof.
  induction points as [|p rest IH].
  - unfold sumOver; cbn; ring.
  - rewrite !sumOver_cons, IH. ring.
Qed.

Lemma sumOver_one (points : list Point.t) :
  sumOver (fun _ => 1) points = INR (length points).
Proof. rewrite sumOver_const. ring. Qed.

Lemma parabola_sums (a b c : R) (points : list Point.t) :
  onParabola a b c points ->
  sumY points = a * sumX2 points + b * sumX points + c * INR (length points) /\
  sumXY points = a * sumX3 points + b * sumX2 points + c * sumX points /\
  sumX2Y points = a * sumX4 points + b * sumX3 points + c * sumX2 points.
Proof.
  intros Hp. unfold sumY, sumXY, sumX2Y, sumX, sumX2, sumX3, sumX4.
  repeat split.
  - rewrite (sumOver_ext _
      (fun p => 0 + a * Point.x p ^ 2 + b * Point.x p + c * 1))
      by (intros p Hin; rewrite (Hp p Hin); ring).
    rewrite (sumOver_combination (fun _ => 0) (fun p => Point.x p ^ 2)
                                 Point.x (fun _ => 1)).
    rewrite sumOver_one, sumOver_const. ring.
  - rewrite (sumOver_ext _
      (fun p => 0 + a * Point.x p ^ 3 + b * Point.x p ^ 2 + c * Point.x p))
      by (intros p Hin; rewrite (Hp p Hin); ring).
    rewrite (sumOver_combination (fun _ => 0) (fun p => Point.x p ^ 3)
                                 (fun p => Point.x p ^ 2) Point.x).
    rewrite sumOver_const. ring.
  - rewrite (sumOver_ext _
      (fun p => 0 + a * Point.x p ^ 4 + b * Point.x p ^ 3 + c * Point.x p ^ 2))
      by (intros p Hin; rewrite (Hp p Hin); ring).
    rewrite (sumOver_combination (fun _ => 0) (fun p => Point.x p ^ 4)
                                 (fun p => Point.x p ^ 3)
                                 (fun p => Point.x p ^ 2)).
    rewrite sumOver_const. ring.
Qed.

(** On a parabola the right-hand side is c·column0 + b·column1 + a·column2. *)
Lemma parabola_cramer (a b c : R) (points : list Point.t) :
  onParabola a b c points -> normalDet points <> 0 ->
  cramerA points = a /\ cramerB points = b /\ cramerC points = c.
Proof.
  intros Hp HD. destruct (parabola_sums a b c points Hp) as (Hy & Hxy & Hx2y).
  unfold cramerA, cramerB, cramerC. rewrite Hy, Hxy, Hx2y.
  set (D := normalDet points) in *.
  assert (HDef : D = normalDet points) by reflexivity.
  unfold normalDet in HDef. unfold sarrus in *.
  repeat split; field_simplify_eq; try exact HD; rewrite ?HDef; ring.
Qed.

(** The residuals of a solution of the normal equations are orthogonal to
    1, x and x². *)
Lemma quadratic_residuals_orthogonal (points : list Point.t)
    (coeffs : Poly2Coeffs.t) :
  solvesNormalEquations points coeffs ->
  let r := fun p => Point.y p - evaluatePoly2 coeffs (Point.x p) in
  sumOver r points = 0 /\
  sumOver (fun p => r p * Point.x p) points = 0 /\
  sumOver (fun p => r p * Point.x p ^ 2) points = 0.
Proof.
  intros (E1 & E2 & E3) r. subst r. cbv zeta in E1, E2, E3.
  unfold evaluatePoly2.
  set (a := Poly2Coeffs.a coeffs) in *.
  set (b := Poly2Coeffs.b coeffs) in *.
  set (c := Poly2Coeffs.c coeffs) in *.
  unfold sumY, sumXY, sumX2Y, sumX, sumX2, sumX3, sumX4 in E1, E2, E3.
  repeat split.
  - rewrite (sumOver_ext _
      (fun p => Point.y p + - a * Point.x p ^ 2 + - b * Point.x p + - c * 1))
      by (intros p _; ring).
    rewrite (sumOver_combination Point.y (fun p => Point.x p ^ 2)
                                 Point.x (fun _ => 1)).
    rewrite sumOver_one, <- E1. ring.
  - rewrite (sumOver_ext _
      (fun p => Point.x p * Point.y p + - a * Point.x p ^ 3
                + - b * Point.x p ^ 2 + - c * Point.x p))
      by (intros p _; ring).
    rewrite (sumOver_combination (fun p => Point.x p * Point.y p)
                                 (fun p => Point.x p ^ 3)
                                 (fun p => Point.x p ^ 2) Point.x).
    rewrite <- E2. ring.
  - rewrite (sumOver_ext _
      (fun p => Point.x p ^ 2 * Point.y p + - a * Point.x p ^ 4
                + - b * Point.x p ^ 3 + - c * Point.x p ^ 2))
      by (intros p _; ring).
    rewrite (sumOver_combination (fun p => Point.x p ^ 2 * Point.y p)
                                 (fun p => Point.x p ^ 4)
                                 (fun p => Point.x p ^ 3)
                                 (fun p => Point.x p ^ 2)).
    rewrite <- E3. ring.
Qed.

(** A solution of the normal equations has the least sum of squares. *)
Lemma normal_equations_least_squares (points : list Point.t)
    (coeffs other : Poly2Coeffs.t) :
  solvesNormalEquations points coeffs ->
  sseQuadratic points coeffs <= sseQuadratic points other.
Proof.
  intros Hs.
  destruct (quadratic_residuals_orthogonal points coeffs Hs) as (H0 & H1 & H2).
  cbv zeta in H0, H1, H2.
  pose (r := fun p => Point.y p - evaluatePoly2 coeffs (Point.x p)).
  pose (d := fun p =>
               0 + (Poly2Coeffs.a coeffs - Poly2Coeffs.a other) * Point.x p ^ 2
               + (Poly2Coeffs.b coeffs - Poly2Coeffs.b other) * Point.x p
               + (Poly2Coeffs.c coeffs - Poly2Coeffs.c other) * 1).
  unfold sseQuadratic.
  rewrite (sumOver_ext
             (fun p => (Point.y p - evaluatePoly2 other (Point.x p)) ^ 2)
             (fun p => (r p + d p) ^ 2))
    by (intros p _; unfold r, d, evaluatePoly2; ring).
  rewrite sum_square_shift.
  assert (Hrd : sumOver (fun p => r p * d p) points = 0).
  { rewrite (sumOver_ext _
       (fun p => 0
                 + (Poly2Coeffs.a coeffs - Poly2Coeffs.a other)
                   * (r p * Point.x p ^ 2)
                 + (Poly2Coeffs.b coeffs - Poly2Coeffs.b other)
                   * (r p * Point.x p)
                 + (Poly2Coeffs.c coeffs - Poly2Coeffs.c other) * r p))
      by (intros p _; unfold d; ring).
    rewrite (sumOver_combination (fun _ => 0)
               (fun p => r p * Point.x p ^ 2) (fun p => r p * Point.x p) r).
    change (sumOver r points) with
      (sumOver (fun p => Point.y p - evaluatePoly2 coeffs (Point.x p)) points).
    change (sumOver (fun p => r p * Point.x p) points) with
      (sumOver (fun p => (Point.y p - evaluatePoly2 coeffs (Point.x p))
                         * Point.x p) points).
    change (sumOver (fun p => r p * Point.x p ^ 2) points) with
      (sumOver (fun p => (Point.y p - evaluatePoly2 coeffs (Point.x p))
                         * Point.x p ^ 2) points).
    rewrite H0, H1, H2, sumOver_const. ring. }
  rewrite Hrd. pose proof (sumOver_square_nonneg d points).
  change (sumOver (fun p => (Point.y p - evaluatePoly2 coeffs (Point.x p)) ^ 2)
                  points)
    with (sumOver (fun p => r p ^ 2) points).
  lra.
Qed.

(** ** Exactly three points *)

Lemma three_points_det (p1 p2 p3 : Point.t) :
  normalDet [p1; p2; p3]
  = ((Point.x p1 - Point.x p2) * (Point.x p1 - Point.x p3)
     * (Point.x p2 - Point.x p3)) ^ 2.
Proof.
  unfold normalDet, sarrus, sumX, sumX2, sumX3, sumX4, sumOver.
  cbn [map Rsum length INR]. ring.
Qed.

Lemma three_points_interpolated (p1 p2 p3 : Point.t) (coeffs : Poly2Coeffs.t) :
  normalDet [p1; p2; p3] <> 0 ->
  solvesNormalEquations [p1; p2; p3] coeffs ->
  forall p, In p [p1; p2; p3] -> evaluatePoly2 coeffs (Point.x p) = Point.y p.
Proof.
  intros HD Hs.
  destruct (quadratic_residuals_orthogonal _ _ Hs) as (H0 & H1 & H2).
  cbv zeta in H0, H1, H2. unfold sumOver in H0, H1, H2.
  cbn [map Rsum] in H0, H1, H2.
  rewrite three_points_det in HD.
  set (r1 := Point.y p1 - evaluatePoly2 coeffs (Point.x p1)) in *.
  set (r2 := Point.y p2 - evaluatePoly2 coeffs (Point.x p2)) in *.
  set (r3 := Point.y p3 - evaluatePoly2 coeffs (Point.x p3)) in *.
  set (x1 := Point.x p1) in *. set (x2 := Point.x p2) in *.
  set (x3 := Point.x p3) in *.
  assert (H12 : x1 - x2 <> 0) by (intros E; apply HD; rewrite E; ring).
  assert (H13 : x1 - x3 <> 0) by (intros E; apply HD; rewrite E; ring).
  assert (H23 : x2 - x3 <> 0) by (intros E; apply HD; rewrite E; ring).
  assert (Z1 : r1 * ((x1 - x2) * (x1 - x3)) = 0).
  { replace (r1 * ((x1 - x2) * (x1 - x3)))
      with ((r1 * x1 ^ 2 + (r2 * x2 ^ 2 + (r3 * x3 ^ 2 + 0)))
            - (x2 + x3) * (r1 * x1 + (r2 * x2 + (r3 * x3 + 0)))
            + x2 * x3 * (r1 + (r2 + (r3 + 0)))) by ring.
    rewrite H0, H1, H2. ring. }
  assert (Z2 : r2 * ((x2 - x1) * (x2 - x3)) = 0).
  { replace (r2 * ((x2 - x1) * (x2 - x3)))
      with ((r1 * x1 ^ 2 + (r2 * x2 ^ 2 + (r3 * x3 ^ 2 + 0)))
            - (x1 + x3) * (r1 * x1 + (r2 * x2 + (r3 * x3 + 0)))
            + x1 * x3 * (r1 + (r2 + (r3 + 0)))) by ring.
    rewrite H0, H1, H2. ring. }
  assert (Z3 : r3 * ((x3 - x1) * (x3 - x2)) = 0).
  { replace (r3 * ((x3 - x1) * (x3 - x2)))
      with ((r1 * x1 ^ 2 + (r2 * x2 ^ 2 + (r3 * x3 ^ 2 + 0)))
            - (x1 + x2) * (r1 * x1 + (r2 * x2 + (r3 * x3 + 0)))
            + x1 * x2 * (r1 + (r2 + (r3 + 0)))) by ring.
    rewrite H0, H1, H2. ring. }
  assert (R1 : r1 = 0).
  { destruct (Rmult_integral _ _ Z1) as [E|E]; [exact E|].
    destruct (Rmult_integral _ _ E); lra. }
  assert (R2 : r2 = 0).
  { destruct (Rmult_integral _ _ Z2) as [E|E]; [exact E|].
    destruct (Rmult_integral _ _ E); lra. }
  assert (R3 : r3 = 0).
  { destruct (Rmult_integral _ _ Z3) as [E|E]; [exact E|].
    destruct (Rmult_integral _ _ E); lra. }
  intros p [<- | [<- | [<- | []]]]; fold x1 x2 x3; unfold r1, r2, r3 in *; lra.
Qed.

(** * More on the bounds and the maps *)

Lemma updateModelAndBounds_contains (st : AppState) :
  boundsInSync (updateModelAndBounds st).
Proof.
  unfold boundsInSync. rewrite updateModelAndBounds_dataPoints.
  pose proof (updateModelAndBounds_bounds st) as H. cbv zeta in H.
  destruct (dataPoints st) as [|front rest].
  - destruct H as (-> & -> & -> & ->). repeat split; try lra; easy.
  - destruct H as (-> & -> & -> & ->).
    destruct (runningMin_spec Point.x (front :: rest) (Point.x front))
      as (HaX & HbX & _).
    destruct (runningMax_spec Point.x (front :: rest) (Point.x front))
      as (HcX & HdX & _).
    destruct (runningMin_spec Point.y (front :: rest) (Point.y front))
      as (HaY & HbY & _).
    destruct (runningMax_spec Point.y (front :: rest) (Point.y front))
      as (HcY & HdY & _).
    cbv zeta in *. repeat split; try lra.
    + specialize (HbX p H). lra.
    + specialize (HdX p H). lra.
    + specialize (HbY p H). lra.
    + specialize (HdY p H). lra.
Qed.

Lemma updateModelAndBounds_currentReg (st : AppState) :
  currentReg (updateModelAndBounds st) = currentReg st.
Proof.
  unfold updateModelAndBounds.
  destruct (dataPoints st) as [|front rest]; [reflexivity|].
  rewrite scan_by_coordinate.
  destruct (currentReg st) eqn:Hreg;
    [destruct (computeLinearRegression _)|]; cbn; now rewrite Hreg.
Qed.

Lemma updateModelAndBounds_model (st : AppState) :
  modelInSync (updateModelAndBounds st).
Proof.
  unfold modelInSync.
  rewrite updateModelAndBounds_currentReg, updateModelAndBounds_dataPoints.
  unfold updateModelAndBounds.
  destruct (dataPoints st) as [|front rest].
  - destruct (currentReg st); reflexivity.
  - rewrite scan_by_coordinate.
    destruct (currentReg st).
    + now destruct (computeLinearRegression (front :: rest)) as [s b].
    + reflexivity.
Qed.

Lemma updateModelAndBounds_window (st : AppState) :
  windowW (updateModelAndBounds st) = windowW st /\
  windowH (updateModelAndBounds st) = windowH st.
Proof.
  unfold updateModelAndBounds.
  destruct (dataPoints st) as [|front rest]; [now cbn|].
  rewrite scan_by_coordinate.
  destruct (currentReg st); [destruct (computeLinearRegression _)|]; now cbn.
Qed.

(** [updateAxes] reads the bounds and the window and writes the axes only. *)
Lemma updateAxes_in_sync (st : AppState) :
  (modelInSync st -> modelInSync (updateAxes st)) /\
  (boundsInSync st -> boundsInSync (updateAxes st)) /\
  axesInSync (updateAxes st).
Proof.
  split; [|split].
  - intros H. exact H.
  - intros H. exact H.
  - split; reflexivity.
Qed.

Lemma cascade_in_sync (st : AppState) :
  let st' := updateAxes (updateModelAndBounds st) in
  modelInSync st' /\ boundsInSync st' /\ axesInSync st'.
Proof.
  cbv zeta.
  destruct (updateAxes_in_sync (updateModelAndBounds st)) as (Hm & Hb & Ha).
  split; [|split].
  - apply Hm, updateModelAndBounds_model.
  - apply Hb, updateModelAndBounds_contains.
  - exact Ha.
Qed.

Ltac expose_update Hi :=
  unfold updateModelAndBounds in Hi; cbn [dataPoints currentReg] in Hi;
  rewrite scan_by_coordinate in Hi.

Lemma updateModelAndBounds_idempotent (st : AppState) :
  updateModelAndBounds (updateModelAndBounds st) = updateModelAndBounds st.
Proof.
  destruct st as [pts reg s i pc mnX mxX mnY mxY w h aX aY lX lY].
  destruct pts as [|front rest]; [reflexivity|].
  match goal with
  | |- updateModelAndBounds ?inner = _ => remember inner as st1 eqn:Hi
  end.
  expose_update Hi.
  destruct reg.
  - destruct (computeLinearRegression (front :: rest)) as [s' b'] eqn:Hfit.
    subst st1. unfold updateModelAndBounds, setModelAndBounds.
    cbn [dataPoints currentReg].
    now rewrite scan_by_coordinate, Hfit.
  - subst st1. unfold updateModelAndBounds, setModelAndBounds.
    cbn [dataPoints currentReg].
    now rewrite scan_by_coordinate.
Qed.

Lemma updateModelAndBounds_after_axes (st : AppState) :
  updateAxes (updateModelAndBounds (updateAxes st))
  = updateAxes (updateModelAndBounds st).
Proof.
  destruct st as [pts reg s i pc mnX mxX mnY mxY w h aX aY lX lY].
  unfold updateAxes at 2. unfold setAxes.
  cbn [dataPoints currentReg slope intercept polyCoeffs minX maxX minY maxY
       windowW windowH axisX axisY labelX labelY].
  unfold updateModelAndBounds. cbn [dataPoints currentReg].
  destruct pts as [|front rest]; [reflexivity|].
  rewrite scan_by_coordinate.
  destruct reg.
  - now destruct (computeLinearRegression (front :: rest)) as [s' b'].
  - reflexivity.
Qed.

Lemma cascade_idempotent (st : AppState) :
  updateAxes (updateModelAndBounds (updateAxes (updateModelAndBounds st)))
  = updateAxes (updateModelAndBounds st).
Proof.
  now rewrite updateModelAndBounds_after_axes, updateModelAndBounds_idempotent.
Qed.

Lemma ratio_between (u lo hi : R) :
  lo < hi -> (lo < u -> 0 < (u - lo) / (hi - lo)) /\
             (u < hi -> (u - lo) / (hi - lo) < 1) /\
             (lo <= u -> 0 <= (u - lo) / (hi - lo)) /\
             (u <= hi -> (u - lo) / (hi - lo) <= 1).
Proof.
  intros H.
  assert (Hi : 0 < / (hi - lo)) by (apply Rinv_0_lt_compat; lra).
  assert (E : (hi - lo) * / (hi - lo) = 1) by (apply Rinv_r; lra).
  unfold Rdiv. repeat split; intros; nra.
Qed.


(** A point inside the bounds is drawn inside the plot rectangle. *)
Lemma toScreenCoords_inside (st : AppState) (x y : R) :
  minX st < maxX st -> minY st < maxY st ->
  100 < windowW st -> 220 < windowH st ->
  minX st < x < maxX st -> minY st < y < maxY st ->
  50 < fst (toScreenCoords st x y) < windowW st - 50 /\
  170 < snd (toScreenCoords st x y) < windowH st - 50.
Proof.
  intros HX HY HW HH [Hx1 Hx2] [Hy1 Hy2].
  unfold toScreenCoords. cbn [fst snd].
  destruct (ratio_between x _ _ HX) as (A1 & A2 & _).
  destruct (ratio_between y _ _ HY) as (B1 & B2 & _).
  specialize (A1 Hx1). specialize (A2 Hx2).
  specialize (B1 Hy1). specialize (B2 Hy2).
  set (tx := (x - minX st) / (maxX st - minX st)) in *.
  set (ty := (y - minY st) / (maxY st - minY st)) in *.
  repeat split; nra.
Qed.

(** ** A zero divisor in the maps *)

Lemma checkedDiv_zero (u v : R) : v = 0 -> checkedDiv u v = DivisionByZero.
Proof. intros ->. unfold checkedDiv. now destruct (Req_dec_T 0 0). Qed.

Lemma toDataCoordsChecked_cases (st : AppState) (sx sy : R) :
  (windowW st = 100 \/ windowH st = 220 ->
   toDataCoordsChecked st sx sy = DivisionByZero) /\
  (windowW st <> 100 -> windowH st <> 220 ->
   toDataCoordsChecked st sx sy = Value (toDataCoords st sx sy)).
Proof.
  unfold toDataCoordsChecked, toDataCoords. cbv zeta. split.
  - intros [E | E].
    + rewrite (checkedDiv_zero _ (windowW st - 100)) by lra. reflexivity.
    + destruct (Req_dec_T (windowW st) 100) as [E'|E'].
      * rewrite (checkedDiv_zero _ (windowW st - 100)) by lra. reflexivity.
      * rewrite (checkedDiv_nonzero _ (windowW st - 100)) by lra. cbn [bind].
        rewrite (checkedDiv_zero _ (windowH st - 120 - 100)) by lra.
        reflexivity.
  - intros HW HH.
    rewrite (checkedDiv_nonzero _ (windowW st - 100)) by lra. cbn [bind].
    rewrite (checkedDiv_nonzero _ (windowH st - 120 - 100)) by lra.
    reflexivity.
Qed.

Lemma toScreenCoordsChecked_cases (st : AppState) (x y : R) :
  (minX st = maxX st \/ minY st = maxY st ->
   toScreenCoordsChecked st x y = DivisionByZero) /\
  (minX st <> maxX st -> minY st <> maxY st ->
   toScreenCoordsChecked st x y = Value (toScreenCoords st x y)).
Proof.
  unfold toScreenCoordsChecked, toScreenCoords. cbv zeta. split.
  - intros [E | E].
    + rewrite (checkedDiv_zero _ (maxX st - minX st)) by lra. reflexivity.
    + destruct (Req_dec_T (minX st) (maxX st)) as [E'|E'].
      * rewrite (checkedDiv_zero _ (maxX st - minX st)) by lra. reflexivity.
      * rewrite (checkedDiv_nonzero _ (maxX st - minX st)) by lra. cbn [bind].
        rewrite (checkedDiv_zero _ (maxY st - minY st)) by lra.
        reflexivity.
  - intros HX HY.
    rewrite (checkedDiv_nonzero _ (maxX st - minX st)) by lra. cbn [bind].
    rewrite (checkedDiv_nonzero _ (maxY st - minY st)) by lra.
    reflexivity.
Qed.

(** * The event loop *)

(** ** Every handler leaves a fixed point of the recomputation *)

Lemma updateModelAndBounds_resized (st : AppState) (w h : R) :
  updateModelAndBounds (setWindowSize st w h)
  = setWindowSize (updateModelAndBounds st) w h.
Proof.
  destruct st as [pts reg s i pc mnX mxX mnY mxY w0 h0 aX aY lX lY].
  unfold updateModelAndBounds, setWindowSize. cbn [dataPoints currentReg].
  destruct pts as [|front rest]; [reflexivity|].
  rewrite scan_by_coordinate.
  destruct reg.
  - now destruct (computeLinearRegression (front :: rest)) as [s' b'].
  - reflexivity.
Qed.

Lemma resize_keeps_fixed_point (st : AppState) (w h : R) :
  updateAxes (updateModelAndBounds st) = st ->
  updateAxes (updateModelAndBounds (updateAxes (setWindowSize st w h)))
  = updateAxes (setWindowSize st w h).
Proof.
  intros Hfix.
  rewrite updateModelAndBounds_after_axes, updateModelAndBounds_resized.
  change (updateAxes (setWindowSize (updateModelAndBounds st) w h))
    with (updateAxes
            (setWindowSize (updateAxes (updateModelAndBounds st)) w h)).
  now rewrite Hfix.
Qed.

Lemma removeNearestPoint_shape (st : AppState) (qx qy : R) :
  removeNearestPoint st qx qy = st \/
  exists points,
    removeNearestPoint st qx qy
    = updateAxes (updateModelAndBounds (setDataPoints st points)).
Proof.
  unfold removeNearestPoint.
  destruct (dataPoints st) as [|p0 rest]; [now left|].
  destruct (nearestSearch st qx qy) as [minDist minIndex].
  destruct (Rltb minDist 10 && (0 <=? minIndex)%Z); [right|now left].
  now eexists.
Qed.

Lemma handleEvent_fixed_point (st : AppState) (event : Event) :
  updateAxes (updateModelAndBounds st) = st ->
  updateAxes (updateModelAndBounds (handleEvent st event))
  = handleEvent st event.
Proof.
  intros Hfix.
  destruct event as [|width height|unicode|code|button x y|]; cbn [handleEvent];
    try exact Hfix.
  - now apply resize_keeps_fixed_point.
  - destruct code; try exact Hfix; apply cascade_idempotent.
  - destruct button; try exact Hfix.
    + apply cascade_idempotent.
    + destruct (removeNearestPoint_shape st (IZR x) (IZR y)) as [-> | [pts ->]];
        [exact Hfix | apply cascade_idempotent].
Qed.

Lemma reachable_fixed_point (st : AppState) :
  reachable st -> updateAxes (updateModelAndBounds st) = st.
Proof.
  induction 1 as [points | st event _ IH _].
  - apply cascade_idempotent.
  - now apply handleEvent_fixed_point.
Qed.

Lemma fixed_point_in_sync (st : AppState) :
  updateAxes (updateModelAndBounds st) = st ->
  modelInSync st /\ boundsInSync st /\ axesInSync st.
Proof. intros <-. apply cascade_in_sync. Qed.

(** In a fixed point the bounds are the extrema moved by the padding. *)
Lemma fixed_point_bounds (st : AppState) (front : Point.t) (rest : list Point.t) :
  updateAxes (updateModelAndBounds st) = st ->
  dataPoints st = front :: rest ->
  minX st = runningMin Point.x (front :: rest) (Point.x front) - 1 /\
  maxX st = runningMax Point.x (front :: rest) (Point.x front) + 1 /\
  minY st = runningMin Point.y (front :: rest) (Point.y front) - 1 /\
  maxY st = runningMax Point.y (front :: rest) (Point.y front) + 1.
Proof.
  intros Hfix Hpts.
  pose proof (updateModelAndBounds_bounds st) as H. cbv zeta in H.
  rewrite Hpts in H.
  change (minX (updateModelAndBounds st))
    with (minX (updateAxes (updateModelAndBounds st))) in H.
  change (maxX (updateModelAndBounds st))
    with (maxX (updateAxes (updateModelAndBounds st))) in H.
  change (minY (updateModelAndBounds st))
    with (minY (updateAxes (updateModelAndBounds st))) in H.
  change (maxY (updateModelAndBounds st))
    with (maxY (updateAxes (updateModelAndBounds st))) in H.
  now rewrite Hfix in H.
Qed.

(** ** A click that adds a point *)

Lemma runningMin_snoc (f : Point.t -> R) (points : list Point.t) (m0 : R)
    (p : Point.t) :
  runningMin f points m0 <= f p ->
  runningMin f (points ++ [p]) m0 = runningMin f points m0.
Proof.
  intros H. unfold runningMin in *. rewrite fold_left_app. cbn [fold_left].
  now replace (Rltb (f p) _) with false by (symmetry; now apply Rltb_false).
Qed.

Lemma runningMax_snoc (f : Point.t -> R) (points : list Point.t) (m0 : R)
    (p : Point.t) :
  f p <= runningMax f points m0 ->
  runningMax f (points ++ [p]) m0 = runningMax f points m0.
Proof.
  intros H. unfold runningMax, Rgtb in *. rewrite fold_left_app. cbn [fold_left].
  now replace (Rltb _ (f p)) with false by (symmetry; now apply Rltb_false).
Qed.

Lemma addClickedPoint_dataPoints (st : AppState) (sx sy : R) :
  dataPoints (addClickedPoint st sx sy)
  = dataPoints st
    ++ [Point.mk (fst (toDataCoords st sx sy)) (snd (toDataCoords st sx sy))].
Proof.
  unfold addClickedPoint. cbv zeta.
  now rewrite updateAxes_dataPoints, updateModelAndBounds_dataPoints.
Qed.

Lemma addClickedPoint_window (st : AppState) (sx sy : R) :
  windowW (addClickedPoint st sx sy) = windowW st /\
  windowH (addClickedPoint st sx sy) = windowH st.
Proof.
  unfold addClickedPoint. cbv zeta.
  match goal with
  | |- context [updateModelAndBounds ?s] =>
      destruct (updateModelAndBounds_window s) as [HW HH]
  end.
  split; [exact HW | exact HH].
Qed.

(** A click inside the box of the data leaves the bounds where they are. *)
Lemma addClickedPoint_bounds (st : AppState) (sx sy : R) :
  updateAxes (updateModelAndBounds st) = st ->
  dataPoints st <> [] ->
  let d := toDataCoords st sx sy in
  minX st + 1 <= fst d <= maxX st - 1 ->
  minY st + 1 <= snd d <= maxY st - 1 ->
  let st' := addClickedPoint st sx sy in
  minX st' = minX st /\ maxX st' = maxX st /\
  minY st' = minY st /\ maxY st' = maxY st.
Proof.
  intros Hfix Hne d HdX HdY st'.
  destruct (dataPoints st) as [|front rest] eqn:Hpts; [easy|].
  destruct (fixed_point_bounds st front rest Hfix Hpts) as (E1 & E2 & E3 & E4).
  subst st'. unfold addClickedPoint. cbv zeta. fold d.
  match goal with
  | |- context [updateModelAndBounds ?s] =>
      pose proof (updateModelAndBounds_bounds s) as H;
      set (st1 := updateModelAndBounds s) in *
  end.
  cbv zeta in H. cbn [dataPoints setDataPoints] in H. rewrite Hpts in H.
  cbn [app] in H. destruct H as (H1 & H2 & H3 & H4).
  change (minX (updateAxes st1)) with (minX st1).
  change (maxX (updateAxes st1)) with (maxX st1).
  change (minY (updateAxes st1)) with (minY st1).
  change (maxY (updateAxes st1)) with (maxY st1).
  rewrite H1, H2, H3, H4, E1, E2, E3, E4.
  change (front :: rest ++ [Point.mk (fst d) (snd d)])
    with ((front :: rest) ++ [Point.mk (fst d) (snd d)]).
  rewrite !runningMin_snoc, !runningMax_snoc; cbn [Point.x Point.y]; lra.
Qed.

(** ** Switching the fit *)

Lemma switch_to_polynomial (st : AppState) :
  let st' := switchRegression st POLYNOMIAL2 in
  currentReg st' = POLYNOMIAL2 /\
  dataPoints st' = dataPoints st /\
  polyCoeffs st' = computePolynomialRegression2 (dataPoints st) /\
  (dataPoints st <> [] -> slope st' = slope st /\ intercept st' = intercept st) /\
  (dataPoints st = [] -> slope st' = 0 /\ intercept st' = 0).
Proof.
  destruct st as [pts reg s i pc mnX mxX mnY mxY w h aX aY lX lY].
  unfold switchRegression, setCurrentReg, updateModelAndBounds.
  cbn [dataPoints currentReg slope intercept polyCoeffs].
  destruct pts as [|front rest].
  - cbn. repeat split; easy.
  - rewrite scan_by_coordinate. cbn. repeat split; easy.
Qed.

Lemma switch_to_linear (st : AppState) :
  let st' := switchRegression st LINEAR in
  currentReg st' = LINEAR /\
  dataPoints st' = dataPoints st /\
  (slope st', intercept st') = computeLinearRegression (dataPoints st) /\
  (dataPoints st <> [] -> polyCoeffs st' = polyCoeffs st) /\
  (dataPoints st = [] -> polyCoeffs st' = Poly2Coeffs.mk 0 0 0).
Proof.
  destruct st as [pts reg s i pc mnX mxX mnY mxY w h aX aY lX lY].
  unfold switchRegression, setCurrentReg, updateModelAndBounds.
  cbn [dataPoints currentReg slope intercept polyCoeffs].
  destruct pts as [|front rest].
  - cbn. repeat split; easy.
  - rewrite scan_by_coordinate.
    destruct (computeLinearRegression (front :: rest)) as [s' b'].
    cbn. repeat split; easy.
Qed.

(** ** The input line *)

Lemma Forall_removelast {A : Type} (P : A -> Prop) (l : list A) :
  Forall P l -> Forall P (removelast l).
Proof.
  induction 1 as [|a l Ha Hl IH]; [constructor|].
  cbn [removelast]. destruct l; [constructor|]. now constructor.
Qed.

Lemma textEntered_keeps_accepted (userInputX : list ascii) (unicode : N) :
  Forall (fun ch => acceptedChar ch = true) userInputX ->
  Forall (fun ch => acceptedChar ch = true) (textEntered userInputX unicode).
Proof.
  intros H. unfold textEntered.
  destruct ((unicode =? 13)%N || (unicode =? 10)%N); [exact H|].
  destruct ((unicode =? 8)%N && negb (Nat.eqb (length userInputX) 0)).
  - now apply Forall_removelast.
  - destruct (unicode <? 128)%N; [|exact H]. cbv zeta.
    destruct (acceptedChar (ascii_of_N unicode)) eqn:E; [|exact H].
    apply Forall_app. split; [exact H|]. now constructor.
Qed.

Lemma accepted_is_no_control (unicode : N) :
  acceptedChar (ascii_of_N unicode) = true ->
  unicode <> 13%N /\ unicode <> 10%N /\ unicode <> 8%N.
Proof.
  intros H. repeat split; intros ->; vm_compute in H; discriminate.
Qed.

Lemma textEntered_append (userInputX : list ascii) (unicode : N) :
  (unicode < 128)%N -> acceptedChar (ascii_of_N unicode) = true ->
  textEntered userInputX unicode = userInputX ++ [ascii_of_N unicode].
Proof.
  intros Hlt Hacc. destruct (accepted_is_no_control unicode Hacc) as (H13 & H10 & H8).
  unfold textEntered.
  replace (unicode =? 13)%N with false by (symmetry; now apply N.eqb_neq).
  replace (unicode =? 10)%N with false by (symmetry; now apply N.eqb_neq).
  replace (unicode =? 8)%N with false by (symmetry; now apply N.eqb_neq).
  cbn [orb andb].
  replace (unicode <? 128)%N with true by (symmetry; now apply N.ltb_lt).
  cbv zeta. now rewrite Hacc.
Qed.

Lemma textEntered_backspace (userInputX : list ascii) (ch : ascii) :
  textEntered (userInputX ++ [ch]) 8 = userInputX.
Proof.
  unfold textEntered. cbn [N.eqb Pos.eqb orb andb].
  rewrite length_app. cbn [length].
  replace (Nat.eqb (length userInputX + 1) 0) with false
    by (symmetry; apply Nat.eqb_neq; lia).
  cbn [negb]. apply removelast_last.
Qed.

(** ** The curve *)

Lemma INR_200 : INR 200 = 200.
Proof. rewrite INR_IZR_INZ. reflexivity. Qed.

Lemma curveVertex_abscissa (st : AppState) (i : nat) :
  minX st <> maxX st ->
  fst (curveVertex st i) = 50 + INR i / 200 * (windowW st - 100).
Proof.
  intros H. unfold curveVertex, toScreenCoords. cbv zeta. cbn [fst].
  rewrite INR_200. field. lra.
Qed.

(** ** Removing the only point *)

Lemma firstNearest_single (st : AppState) (qx qy : R) (p : Point.t) :
  firstNearest st qx qy [p] 0 p.
Proof.
  repeat split.
  - intros [|[|j]] q Hq; cbn in Hq; try discriminate.
    injection Hq as <-. lra.
  - intros j q Hj. lia.
Qed.

Lemma singleState_bounds :
  minX singleState = 2 /\ maxX singleState = 4 /\
  minY singleState = 6 /\ maxY singleState = 8 /\
  windowW singleState = 800 /\ windowH singleState = 600.
Proof.
  unfold singleState, startState.
  match goal with
  | |- context [updateModelAndBounds ?s0] =>
      pose proof (updateModelAndBounds_bounds s0) as H;
      cbv zeta in H; cbn [dataPoints] in H;
      set (st := updateModelAndBounds s0) in *
  end.
  destruct H as (H1 & H2 & H3 & H4).
  change (minX (updateAxes st)) with (minX st).
  change (maxX (updateAxes st)) with (maxX st).
  change (minY (updateAxes st)) with (minY st).
  change (maxY (updateAxes st)) with (maxY st).
  rewrite H1, H2, H3, H4.
  unfold runningMin, runningMax, Rgtb.
  cbn [fold_left Point.x Point.y]. decide_Rltb.
  repeat split; try lra.
Qed.

Lemma acceptedChar_numberChars (ch : ascii) :
  acceptedChar ch = true <-> In ch numberChars.
Proof.
  destruct ch as [[] [] [] [] [] [] [] []];
    (split; intros H;
     [ vm_compute in H; try discriminate H;
       unfold numberChars; cbn [In];
       repeat (first [left; reflexivity | right])
     | first [ reflexivity
             | exfalso; unfold numberChars in H; cbn [In] in H;
               repeat (destruct H as [H|H]; [discriminate H|]); exact H ] ]).
Qed.

(** * Further theorems *)

(** X1. Both fits depend on the points as a multiset only: reordering the
    vector changes neither the line nor the parabola returned. *)
Theorem fits_ignore_order (l l' : list Point.t) :
  Permutation l l' ->
  computeLinearRegression l = computeLinearRegression l' /\
  computePolynomialRegression2 l = computePolynomialRegression2 l'.
Proof.
  intros H. split.
  - now apply computeLinearRegression_perm.
  - now apply computePolynomialRegression2_perm.
Qed.

Lemma fits_ignore_order_witness :
  computeLinearRegression linePoints = computeLinearRegression (rev linePoints) /\
  computePolynomialRegression2 linePoints
  = computePolynomialRegression2 (rev linePoints).
Proof. apply fits_ignore_order, Permutation_rev. Defined.

(** X2. Over exact arithmetic, from points of a line y = m·x + k whose
    abscissae are not all the same, [computeLinearRegression] returns
    exactly (m, k). *)
Theorem computeLinearRegression_recovers_line
    (m k : R) (points : list Point.t) :
  onLine m k points -> ~ allXIdentical points ->
  computeLinearRegression points = (m, k).
Proof. apply line_recovered. Qed.

Lemma computeLinearRegression_recovers_line_witness :
  computeLinearRegression repeatedPoints = (2, 1).
Proof.
  apply computeLinearRegression_recovers_line.
  - intros p Hp. unfold repeatedPoints in Hp. cbn [In] in Hp.
    destruct Hp as [<- | [<- | [<- | []]]]; cbn [Point.x Point.y]; lra.
  - intros H.
    specialize (H (Point.mk 0 1) (Point.mk 1 3)
                  (or_introl eq_refl) (or_intror (or_introl eq_refl))).
    cbn [Point.x] in H. lra.
Defined.

(** X3. Over exact arithmetic, on a non-empty vector the line that
    [computeLinearRegression] returns has the least sum of squared
    residuals among all lines, in the regular case and in the horizontal
    fallback alike. *)
Theorem computeLinearRegression_least_squares
    (points : list Point.t) (s' b' : R) :
  points <> [] ->
  sseLinear points (fst (computeLinearRegression points))
                   (snd (computeLinearRegression points))
  <= sseLinear points s' b'.
Proof. apply linear_least_squares. Qed.

Lemma computeLinearRegression_least_squares_witness :
  sseLinear demoPoints (fst (computeLinearRegression demoPoints))
                       (snd (computeLinearRegression demoPoints))
  <= sseLinear demoPoints 1 0.
Proof. apply computeLinearRegression_least_squares. discriminate. Defined.

(** X4. Over exact arithmetic, from 3 or more points of a parabola
    y = a·x² + b·x + c whose normal-equations determinant has absolute
    value at least 1e-12, [computePolynomialRegression2] returns exactly
    (a, b, c). *)
Theorem computePolynomialRegression2_recovers_parabola
    (a b c : R) (points : list Point.t) :
  (3 <= length points)%nat ->
  onParabola a b c points ->
  detThreshold <= Rabs (normalDet points) ->
  computePolynomialRegression2 points = Poly2Coeffs.mk a b c.
Proof.
  intros Hlen Hp HD. rewrite (regular_exit points Hlen HD).
  destruct (parabola_cramer a b c points Hp (regular_det_nonzero points HD))
    as (-> & -> & ->).
  reflexivity.
Qed.

Lemma computePolynomialRegression2_recovers_parabola_witness :
  computePolynomialRegression2
    [Point.mk 0 1; Point.mk 1 2; Point.mk 2 7; Point.mk (-1) 4]
  = Poly2Coeffs.mk 2 (-1) 1.
Proof.
  apply computePolynomialRegression2_recovers_parabola.
  - cbn. lia.
  - intros p Hp. cbn [In] in Hp.
    destruct Hp as [<- | [<- | [<- | [<- | []]]]]; cbn [Point.x Point.y]; lra.
  - replace (normalDet _) with 80
      by (unfold normalDet, sarrus; eval_sums; lra).
    unfold detThreshold. rewrite Rabs_pos_eq; lra.
Defined.

(** X5. Over exact arithmetic, on 3 or more points whose
    normal-equations determinant has absolute value at least 1e-12, the
    parabola that [computePolynomialRegression2] returns has the least sum
    of squared residuals among all parabolas. *)
Theorem computePolynomialRegression2_least_squares
    (points : list Point.t) (other : Poly2Coeffs.t) :
  (3 <= length points)%nat ->
  detThreshold <= Rabs (normalDet points) ->
  sseQuadratic points (computePolynomialRegression2 points)
  <= sseQuadratic points other.
Proof.
  intros Hlen HD. apply normal_equations_least_squares.
  rewrite (regular_exit points Hlen HD).
  apply cramer_solves. now apply regular_det_nonzero.
Qed.

Lemma computePolynomialRegression2_least_squares_witness :
  sseQuadratic parabolaPoints (computePolynomialRegression2 parabolaPoints)
  <= sseQuadratic parabolaPoints (Poly2Coeffs.mk 0 2 (-1)).
Proof.
  apply computePolynomialRegression2_least_squares.
  - cbn. lia.
  - rewrite parabolaPoints_det. exact Rabs_4_regular.
Defined.

(** X6. Over exact arithmetic, for exactly three points the
    normal-equations determinant is the square of (x1−x2)(x1−x3)(x2−x3);
    when its absolute value is at least 1e-12 the fitted parabola passes
    through all three points. *)
Theorem three_points_fit_interpolates (p1 p2 p3 : Point.t) :
  normalDet [p1; p2; p3]
  = ((Point.x p1 - Point.x p2) * (Point.x p1 - Point.x p3)
     * (Point.x p2 - Point.x p3)) ^ 2 /\
  (detThreshold <= Rabs (normalDet [p1; p2; p3]) ->
   forall p, In p [p1; p2; p3] ->
     evaluatePoly2 (computePolynomialRegression2 [p1; p2; p3]) (Point.x p)
     = Point.y p).
Proof.
  split; [apply three_points_det|].
  intros HD.
  assert (Hlen : (3 <= length [p1; p2; p3])%nat) by (cbn; lia).
  pose proof (regular_det_nonzero _ HD) as Hnz.
  apply (three_points_interpolated p1 p2 p3 _ Hnz).
  rewrite (regular_exit _ Hlen HD). now apply cramer_solves.
Qed.

Lemma three_points_fit_interpolates_witness :
  let fit :=
    computePolynomialRegression2 [Point.mk 1 2; Point.mk 2 (-1); Point.mk 4 5] in
  evaluatePoly2 fit 1 = 2 /\ evaluatePoly2 fit 2 = -1 /\ evaluatePoly2 fit 4 = 5.
Proof.
  cbv zeta.
  destruct (three_points_fit_interpolates
              (Point.mk 1 2) (Point.mk 2 (-1)) (Point.mk 4 5)) as [_ H].
  assert (HD : detThreshold
               <= Rabs (normalDet [Point.mk 1 2; Point.mk 2 (-1); Point.mk 4 5])).
  { rewrite three_points_det. cbn [Point.x].
    unfold detThreshold. rewrite Rabs_pos_eq; lra. }
  specialize (H HD).
  split; [|split].
  - apply (H (Point.mk 1 2)). cbn [In]. tauto.
  - apply (H (Point.mk 2 (-1))). cbn [In]. tauto.
  - apply (H (Point.mk 4 5)). cbn [In]. tauto.
Defined.

(** X7. Whether [computePolynomialRegression2] takes its singular exit is
    decided by the abscissae alone: two vectors with the same x, point by
    point, have the same determinant, and a determinant below 1e-12 in
    absolute value sends both to {0,0,0} whatever their y.  This holds of
    the determinant of exact arithmetic and of the determinant that the
    program computes in binary64. *)
Theorem singular_exit_ignores_ordinates :
  (forall l l' : list Point.t,
     map Point.x l = map Point.x l' ->
     normalDet l = normalDet l' /\
     (Rabs (normalDet l) < detThreshold ->
      computePolynomialRegression2 l = Poly2Coeffs.mk 0 0 0 /\
      computePolynomialRegression2 l' = Poly2Coeffs.mk 0 0 0)) /\
  (forall l l' : list Binary.Point.t,
     map Binary.Point.x l = map Binary.Point.x l' ->
     Binary.determinant l = Binary.determinant l' /\
     (Binary.ltb (SFabs (Binary.determinant l)) Binary.detThreshold = true ->
      Binary.computePolynomialRegression2 l
      = Binary.Poly2Coeffs.mk Binary.zero Binary.zero Binary.zero /\
      Binary.computePolynomialRegression2 l'
      = Binary.Poly2Coeffs.mk Binary.zero Binary.zero Binary.zero)).
Proof.
  split.
  - intros l l' H. pose proof (normalDet_abscissae l l' H) as E.
    split; [exact E|]. intros HD. split.
    + now apply small_det_exit.
    + apply small_det_exit. now rewrite <- E.
  - intros l l' H. pose proof (binary_determinant_abscissae l' l H) as E.
    split; [exact E|]. intros HD. split.
    + now apply binary_small_det.
    + apply binary_small_det. now rewrite <- E.
Qed.

Lemma singular_exit_ignores_ordinates_witness :
  (computePolynomialRegression2 verticalPoints = Poly2Coeffs.mk 0 0 0 /\
   computePolynomialRegression2 repeatedPoints_x1 = Poly2Coeffs.mk 0 0 0) /\
  (Binary.computePolynomialRegression2
     [Binary.point 1 0; Binary.point 1 1; Binary.point 1 3]
   = Binary.Poly2Coeffs.mk Binary.zero Binary.zero Binary.zero /\
   Binary.computePolynomialRegression2
     [Binary.point 1 5; Binary.point 1 (-2); Binary.point 1 9]
   = Binary.Poly2Coeffs.mk Binary.zero Binary.zero Binary.zero).
Proof.
  split.
  - apply (proj1 singular_exit_ignores_ordinates
             verticalPoints repeatedPoints_x1).
    + reflexivity.
    + replace (normalDet verticalPoints) with 0
        by (unfold normalDet, sarrus, verticalPoints; eval_sums; lra).
      rewrite Rabs_R0. exact detThreshold_pos.
  - apply (proj2 singular_exit_ignores_ordinates
             [Binary.point 1 0; Binary.point 1 1; Binary.point 1 3]
             [Binary.point 1 5; Binary.point 1 (-2); Binary.point 1 9]).
    + reflexivity.
    + vm_compute. reflexivity.
Defined.

(** X8. Over exact arithmetic, in every state that the event loop reaches
    from its start state while left clicks arrive only in a window neither
    100 wide nor 220 high, and whose window is wider than 100 and higher
    than 220, each data point is drawn strictly inside the plot rectangle:
    50 < screenX < w − 50 and 170 < screenY < h − 50. *)
Theorem points_drawn_inside_plot (st : AppState) (p : Point.t) :
  reachable st ->
  100 < windowW st -> 220 < windowH st ->
  In p (dataPoints st) ->
  50 < fst (toScreenCoords st (Point.x p) (Point.y p)) < windowW st - 50 /\
  170 < snd (toScreenCoords st (Point.x p) (Point.y p)) < windowH st - 50.
Proof.
  intros Hr HW HH Hp.
  destruct (fixed_point_in_sync st (reachable_fixed_point st Hr))
    as (_ & (HX & HY & Hin) & _).
  destruct (Hin p Hp) as [Hx Hy].
  apply toScreenCoords_inside; try assumption; lra.
Qed.

Lemma points_drawn_inside_plot_witness :
  50 < fst (toScreenCoords demoState 3 1.3) < windowW demoState - 50 /\
  170 < snd (toScreenCoords demoState 3 1.3) < windowH demoState - 50.
Proof.
  destruct demoState_bounds as (_ & _ & _ & _ & HW & HH).
  apply (points_drawn_inside_plot demoState (Point.mk 3 1.3)).
  - apply reach_start.
  - rewrite HW. lra.
  - rewrite HH. lra.
  - rewrite demoState_dataPoints. unfold demoPoints. cbn [In]. tauto.
Defined.



(** X10. The recomputation is idempotent: running [updateModelAndBounds]
    twice, [updateAxes] twice, or the cascade of both twice, gives what
    one run gives. *)
Theorem recomputation_idempotent (st : AppState) :
  updateModelAndBounds (updateModelAndBounds st) = updateModelAndBounds st /\
  updateAxes (updateAxes st) = updateAxes st /\
  updateAxes (updateModelAndBounds (updateAxes (updateModelAndBounds st)))
  = updateAxes (updateModelAndBounds st).
Proof.
  split; [apply updateModelAndBounds_idempotent|].
  split; [reflexivity | apply cascade_idempotent].
Qed.

(** X11. The divisions of the coordinate maps are not guarded.
    [toDataCoords] meets a zero divisor exactly when the window is 100
    wide or 220 high, which a resize event brings about; [toScreenCoords]
    meets one exactly when minX = maxX or minY = maxY, which is the case in
    no state of the event loop. *)
Theorem coordinate_map_divisions :
  (forall st sx sy,
     toDataCoordsChecked st sx sy = DivisionByZero
     <-> windowW st = 100 \/ windowH st = 220) /\
  (forall st x y,
     toScreenCoordsChecked st x y = DivisionByZero
     <-> minX st = maxX st \/ minY st = maxY st) /\
  (forall st x y,
     reachable st ->
     toScreenCoordsChecked st x y = Value (toScreenCoords st x y)) /\
  (forall points height sx sy,
     let st := handleEvent (startState points 800 600) (Resized 100 height) in
     reachable st /\ toDataCoordsChecked st sx sy = DivisionByZero).
Proof.
  split; [|split; [|split]].
  - intros st sx sy. destruct (toDataCoordsChecked_cases st sx sy) as [Hz Hv].
    split; [|exact Hz]. intros E.
    destruct (Req_dec_T (windowW st) 100) as [HW|HW]; [now left|].
    destruct (Req_dec_T (windowH st) 220) as [HH|HH]; [now right|].
    rewrite (Hv HW HH) in E. discriminate.
  - intros st x y. destruct (toScreenCoordsChecked_cases st x y) as [Hz Hv].
    split; [|exact Hz]. intros E.
    destruct (Req_dec_T (minX st) (maxX st)) as [HX|HX]; [now left|].
    destruct (Req_dec_T (minY st) (maxY st)) as [HY|HY]; [now right|].
    rewrite (Hv HX HY) in E. discriminate.
  - intros st x y Hr.
    destruct (fixed_point_in_sync st (reachable_fixed_point st Hr))
      as (_ & (HX & HY & _) & _).
    apply toScreenCoordsChecked_cases; lra.
  - intros points height sx sy st. split.
    + apply reach_event; [apply reach_start | exact I].
    + apply toDataCoordsChecked_cases. left. reflexivity.
Qed.

Lemma coordinate_map_divisions_witness :
  toScreenCoordsChecked demoState 3 1.3 = Value (toScreenCoords demoState 3 1.3).
Proof.
  apply coordinate_map_divisions. apply reach_start.
Defined.

(** X12. A left click appends one point, the image of the click under
    [toDataCoords].  Over exact arithmetic, in a state with points that
    the event loop reaches from its start state while left clicks arrive
    only in a window neither 100 wide nor 220 high, with a window neither
    100 wide nor 220 high and a click whose image lies in the box of the
    data (at least the padding inside the bounds), the bounds stay as they
    are and the new point is drawn exactly where the click was. *)
Theorem left_click_adds_point (st : AppState) (x y : Z) :
  let st' := handleEvent st (MouseButtonPressed ButtonLeft x y) in
  let d := toDataCoords st (IZR x) (IZR y) in
  dataPoints st' = dataPoints st ++ [Point.mk (fst d) (snd d)] /\
  (reachable st ->
   windowW st <> 100 -> windowH st <> 220 ->
   dataPoints st <> [] ->
   minX st + 1 <= fst d <= maxX st - 1 ->
   minY st + 1 <= snd d <= maxY st - 1 ->
   (minX st', maxX st', minY st', maxY st')
   = (minX st, maxX st, minY st, maxY st) /\
   toScreenCoords st' (fst d) (snd d) = (IZR x, IZR y)).
Proof.
  cbv zeta. cbn [handleEvent]. split; [apply addClickedPoint_dataPoints|].
  intros Hr HW HH Hne HdX HdY.
  pose proof (reachable_fixed_point st Hr) as Hfix.
  destruct (addClickedPoint_bounds st (IZR x) (IZR y) Hfix Hne HdX HdY)
    as (E1 & E2 & E3 & E4).
  destruct (addClickedPoint_window st (IZR x) (IZR y)) as [EW EH].
  destruct (fixed_point_in_sync st Hfix) as (_ & (HX & HY & _) & _).
  split.
  - now rewrite E1, E2, E3, E4.
  - transitivity (toScreenCoords st
                    (fst (toDataCoords st (IZR x) (IZR y)))
                    (snd (toDataCoords st (IZR x) (IZR y)))).
    + unfold toScreenCoords. now rewrite E1, E2, E3, E4, EW, EH.
    + apply toScreen_after_toData; lra.
Qed.

Lemma left_click_adds_point_witness :
  let st' := handleEvent demoState (MouseButtonPressed ButtonLeft 400 360) in
  dataPoints st' = demoPoints ++ [Point.mk 3 2.75] /\
  toScreenCoords st' 3 2.75 = (400, 360).
Proof.
  cbv zeta.
  destruct demoState_bounds as (H1 & H2 & H3 & H4 & H5 & H6).
  assert (Hd : toDataCoords demoState 400 360 = (3, 2.75)).
  { unfold toDataCoords. cbv zeta. rewrite H1, H2, H3, H4, H5, H6.
    f_equal; lra. }
  destruct (left_click_adds_point demoState 400 360) as [Hpts Hdraw].
  cbv zeta in Hpts, Hdraw. rewrite Hd in Hpts, Hdraw. cbn [fst snd] in *.
  rewrite demoState_dataPoints in Hpts. split; [exact Hpts|].
  apply Hdraw.
  - apply reach_start.
  - rewrite H5. lra.
  - rewrite H6. lra.
  - rewrite demoState_dataPoints. discriminate.
  - rewrite H1, H2. lra.
  - rewrite H3, H4. lra.
Defined.

(** X13. The keys L and P set the active fit and recompute its
    coefficients from the current points, which they leave as they are.
    The coefficients of the other fit are not recomputed: they keep their
    values when there are points and are zeroed when there are none. *)
Theorem key_switches_fit (st : AppState) :
  let stL := handleEvent st (KeyPressed KeyL) in
  let stP := handleEvent st (KeyPressed KeyP) in
  (currentReg stL = LINEAR /\ dataPoints stL = dataPoints st /\
   (slope stL, intercept stL) = computeLinearRegression (dataPoints st) /\
   (dataPoints st <> [] -> polyCoeffs stL = polyCoeffs st) /\
   (dataPoints st = [] -> polyCoeffs stL = Poly2Coeffs.mk 0 0 0)) /\
  (currentReg stP = POLYNOMIAL2 /\ dataPoints stP = dataPoints st /\
   polyCoeffs stP = computePolynomialRegression2 (dataPoints st) /\
   (dataPoints st <> [] -> slope stP = slope st /\ intercept stP = intercept st) /\
   (dataPoints st = [] -> slope stP = 0 /\ intercept stP = 0)).
Proof.
  cbv zeta. cbn [handleEvent]. split.
  - apply switch_to_linear.
  - apply switch_to_polynomial.
Qed.

Lemma key_switches_fit_witness :
  polyCoeffs (handleEvent demoState (KeyPressed KeyP))
  = computePolynomialRegression2 demoPoints /\
  slope (handleEvent demoState (KeyPressed KeyP)) = slope demoState.
Proof.
  destruct (key_switches_fit demoState) as [_ (_ & _ & Hpc & Hkeep & _)].
  cbv zeta in *. rewrite demoState_dataPoints in *. split; [exact Hpc|].
  apply Hkeep. discriminate.
Defined.

(** X14. Over exact arithmetic, every state that the event loop reaches
    from its start state while left clicks arrive only in a window neither
    100 wide nor 220 high is a fixed point of the recomputation: the
    coefficients of the active fit are those of the current points, the
    bounds are proper and keep each point at least the padding inside, and
    the axes are the images of the bounds. *)
Theorem reachable_state_in_sync (st : AppState) :
  reachable st ->
  updateAxes (updateModelAndBounds st) = st /\
  (currentReg st = LINEAR ->
   (slope st, intercept st) = computeLinearRegression (dataPoints st)) /\
  (currentReg st = POLYNOMIAL2 ->
   polyCoeffs st = computePolynomialRegression2 (dataPoints st)) /\
  minX st < maxX st /\ minY st < maxY st /\
  (forall p, In p (dataPoints st) ->
     minX st + 1 <= Point.x p <= maxX st - 1 /\
     minY st + 1 <= Point.y p <= maxY st - 1) /\
  axisX st = (toScreenCoords st (minX st) 0, toScreenCoords st (maxX st) 0) /\
  axisY st = (toScreenCoords st 0 (minY st), toScreenCoords st 0 (maxY st)).
Proof.
  intros Hr. pose proof (reachable_fixed_point st Hr) as Hfix.
  destruct (fixed_point_in_sync st Hfix) as (Hm & (HX & HY & Hin) & (HaX & HaY)).
  unfold modelInSync in Hm.
  repeat split; try assumption; try (now apply Hin).
  - intros E. now rewrite E in Hm.
  - intros E. now rewrite E in Hm.
Qed.

Lemma reachable_state_in_sync_witness :
  let st := handleEvents demoState
              [KeyPressed KeyP; Resized 1024 768;
               MouseButtonPressed ButtonRight 10 10; TextEntered 49] in
  updateAxes (updateModelAndBounds st) = st /\ minX st < maxX st.
Proof.
  cbv zeta.
  match goal with
  | |- updateAxes (updateModelAndBounds ?s) = _ /\ _ =>
      destruct (reachable_state_in_sync s) as (Hfix & _ & _ & HX & _)
  end.
  - unfold handleEvents. cbn [fold_left].
    repeat (apply reach_event; [|exact I]). apply reach_start.
  - split; [exact Hfix | exact HX].
Defined.

(** X15. Over exact arithmetic, in a state that the event loop reaches
    from its start state while left clicks arrive only in a window neither
    100 wide nor 220 high, the prediction is that of the fit of the
    current points: when they lie on a line with at least two different x
    and the linear fit is active it is m·x + k, and when 3 or more lie on a
    parabola with |det| at least 1e-12 and the quadratic fit is active it
    is a·x² + b·x + c. *)
Theorem prediction_reproduces_exact_data (st : AppState) (xVal : R) :
  reachable st ->
  (forall m k,
     currentReg st = LINEAR ->
     onLine m k (dataPoints st) -> ~ allXIdentical (dataPoints st) ->
     predict st xVal = m * xVal + k) /\
  (forall a b c,
     currentReg st = POLYNOMIAL2 ->
     (3 <= length (dataPoints st))%nat ->
     onParabola a b c (dataPoints st) ->
     detThreshold <= Rabs (normalDet (dataPoints st)) ->
     predict st xVal = a * xVal * xVal + b * xVal + c).
Proof.
  intros Hr.
  destruct (fixed_point_in_sync st (reachable_fixed_point st Hr)) as (Hm & _).
  unfold modelInSync in Hm. split.
  - intros m k Hreg Hl Hx. unfold predict. rewrite Hreg in *.
    rewrite (line_recovered m k _ Hl Hx) in Hm.
    injection Hm as -> ->. reflexivity.
  - intros a b c Hreg Hlen Hp HD. unfold predict. rewrite Hreg in *.
    rewrite Hm, (regular_exit _ Hlen HD).
    destruct (parabola_cramer a b c _ Hp (regular_det_nonzero _ HD))
      as (-> & -> & ->).
    reflexivity.
Qed.

Lemma prediction_reproduces_exact_data_witness :
  predict (startState linePoints 800 600) 6 = 2 * 6 + 1.
Proof.
  assert (Hpts : dataPoints (startState linePoints 800 600) = linePoints).
  { unfold startState.
    now rewrite updateAxes_dataPoints, updateModelAndBounds_dataPoints. }
  assert (Hreg : currentReg (startState linePoints 800 600) = LINEAR).
  { unfold startState.
    change (currentReg (updateAxes ?s)) with (currentReg s).
    now rewrite updateModelAndBounds_currentReg. }
  apply (prediction_reproduces_exact_data (startState linePoints 800 600) 6).
  - apply reach_start.
  - exact Hreg.
  - rewrite Hpts. exact linePoints_onLine.
  - rewrite Hpts. intros H.
    specialize (H (Point.mk 0 1) (Point.mk 1 3)
                  (or_introl eq_refl) (or_intror (or_introl eq_refl))).
    cbn [Point.x] in H. lra.
Defined.

Lemma textEntered_fold_accepted (events : list N) :
  forall userInputX,
    Forall (fun ch => acceptedChar ch = true) userInputX ->
    Forall (fun ch => acceptedChar ch = true)
           (fold_left textEntered events userInputX).
Proof.
  induction events as [|u events IH]; intros buf Hbuf; [exact Hbuf|].
  cbn [fold_left]. apply IH. now apply textEntered_keeps_accepted.
Qed.

(** X16. Whatever text events arrive, the input line holds only the
    characters 0-9, dot and minus.  A code point below 128 of such a
    character is appended to the line, and a backspace right after it
    gives the line back as it was. *)
Theorem input_line_number_characters :
  (forall events ch,
     In ch (fold_left textEntered events []) -> In ch numberChars) /\
  (forall userInputX unicode,
     (unicode < 128)%N -> In (ascii_of_N unicode) numberChars ->
     textEntered userInputX unicode = userInputX ++ [ascii_of_N unicode] /\
     textEntered (textEntered userInputX unicode) 8 = userInputX).
Proof.
  split.
  - intros events ch Hin.
    pose proof (textEntered_fold_accepted events [] (Forall_nil _)) as H.
    rewrite Forall_forall in H. apply acceptedChar_numberChars. now apply H.
  - intros buf u Hlt Hin. apply acceptedChar_numberChars in Hin.
    rewrite (textEntered_append buf u Hlt Hin). split; [reflexivity|].
    apply textEntered_backspace.
Qed.

Lemma input_line_number_characters_witness :
  textEntered [ "4"%char ] 50 = [ "4"%char; "2"%char ] /\
  textEntered (textEntered [ "4"%char ] 50) 8 = [ "4"%char ].
Proof.
  apply (proj2 input_line_number_characters [ "4"%char ] 50%N).
  - reflexivity.
  - unfold numberChars. cbn. tauto.
Defined.

(** X17. Over exact arithmetic, in every state that the event loop
    reaches from its start state while left clicks arrive only in a window
    neither 100 wide nor 220 high, vertex i of the curve is drawn at
    screenX = 50 + i/200·(w − 100), whatever the data and the fit: the 201
    vertices are evenly spaced from the left edge 50 of the plot to its
    right edge w − 50. *)
Theorem curve_spans_plot_width (st : AppState) :
  reachable st ->
  (forall i, fst (curveVertex st i) = 50 + INR i / 200 * (windowW st - 100)) /\
  fst (curveVertex st 0) = 50 /\
  fst (curveVertex st 200) = windowW st - 50.
Proof.
  intros Hr.
  destruct (fixed_point_in_sync st (reachable_fixed_point st Hr))
    as (_ & (HX & _) & _).
  assert (Hne : minX st <> maxX st) by lra.
  split; [|split].
  - intros i. now apply curveVertex_abscissa.
  - rewrite (curveVertex_abscissa st 0 Hne). cbn [INR]. field.
  - rewrite (curveVertex_abscissa st 200 Hne), INR_200. field.
Qed.

Lemma curve_spans_plot_width_witness :
  fst (curveVertex demoState 0) = 50 /\
  fst (curveVertex demoState 200) = windowW demoState - 50.
Proof. apply (curve_spans_plot_width demoState). apply reach_start. Defined.

(** X18. A right click less than 10 pixels from the image of the only
    point removes it and resets the derived state: no points, bounds
    [-1,1]×[-1,1], and all coefficients zero. *)
Theorem removing_only_point_resets (st : AppState) (p : Point.t) (x y : Z) :
  dataPoints st = [p] ->
  screenDistance st (IZR x) (IZR y) p < 10 ->
  let st' := handleEvent st (MouseButtonPressed ButtonRight x y) in
  dataPoints st' = [] /\
  (minX st', maxX st', minY st', maxY st') = (-1, 1, -1, 1) /\
  (slope st', intercept st') = (0, 0) /\
  polyCoeffs st' = Poly2Coeffs.mk 0 0 0.
Proof.
  intros Hpts Hnear. cbv zeta. cbn [handleEvent].
  pose proof (firstNearest_single st (IZR x) (IZR y) p) as Hfn.
  rewrite <- Hpts in Hfn.
  rewrite (removal_when_near st (IZR x) (IZR y) 0 p Hfn Hnear).
  rewrite Hpts. unfold erase. cbn [firstn skipn app].
  repeat split.
Qed.

Lemma removing_only_point_resets_witness :
  let st' := handleEvent singleState (MouseButtonPressed ButtonRight 402 357) in
  dataPoints st' = [] /\
  (minX st', maxX st', minY st', maxY st') = (-1, 1, -1, 1) /\
  (slope st', intercept st') = (0, 0) /\
  polyCoeffs st' = Poly2Coeffs.mk 0 0 0.
Proof.
  apply (removing_only_point_resets singleState (Point.mk 3 7)).
  - exact singleState_dataPoints.
  - unfold screenDistance, toScreenCoords. cbv zeta. cbn [fst snd Point.x Point.y].
    destruct singleState_bounds as (-> & -> & -> & -> & -> & ->).
    replace ((50 + (3 - 2) / (4 - 2) * (800 - 100) - 402) ^ 2
             + (600 - 50 - (7 - 6) / (8 - 6) * (600 - 120 - 100) - 357) ^ 2)
      with 13 by lra.
    rewrite <- (sqrt_square 10) by lra.
    apply sqrt_lt_1_alt. lra.
Defined.

(** ** A click and its undo *)

Lemma setDataPoints_same (st : AppState) : setDataPoints st (dataPoints st) = st.
Proof. now destruct st. Qed.

(** With points, the recomputation leaves the coefficients of the fit
    that is not active as they are. *)
Lemma updateModelAndBounds_inactive (st : AppState) :
  dataPoints st <> [] ->
  (currentReg st = LINEAR ->
   polyCoeffs (updateModelAndBounds st) = polyCoeffs st) /\
  (currentReg st = POLYNOMIAL2 ->
   slope (updateModelAndBounds st) = slope st /\
   intercept (updateModelAndBounds st) = intercept st).
Proof.
  intros Hne. unfold updateModelAndBounds.
  destruct (dataPoints st) as [|front rest]; [easy|].
  rewrite scan_by_coordinate.
  destruct (currentReg st).
  - destruct (computeLinearRegression (front :: rest)) as [s b].
    split; [reflexivity | discriminate].
  - split; [discriminate | now split].
Qed.

(** The cascade reads the points, the active fit, the window and, with
    points, the coefficients of the fit that is not active. *)
Lemma cascade_determined (t t' : AppState) :
  dataPoints t = dataPoints t' ->
  currentReg t = currentReg t' ->
  windowW t = windowW t' -> windowH t = windowH t' ->
  (dataPoints t <> [] -> currentReg t = LINEAR ->
   polyCoeffs t = polyCoeffs t') ->
  (dataPoints t <> [] -> currentReg t = POLYNOMIAL2 ->
   slope t = slope t' /\ intercept t = intercept t') ->
  updateAxes (updateModelAndBounds t) = updateAxes (updateModelAndBounds t').
Proof.
  destruct t as [pts reg s i pc mnX mxX mnY mxY w h aX aY lX lY].
  destruct t' as [pts' reg' s' i' pc' mnX' mxX' mnY' mxY' w' h' aX' aY' lX' lY'].
  cbn [dataPoints currentReg slope intercept polyCoeffs windowW windowH].
  intros <- <- <- <- Hpc Hsi.
  unfold updateModelAndBounds. cbn [dataPoints currentReg].
  destruct pts as [|front rest]; [reflexivity|].
  rewrite scan_by_coordinate.
  destruct reg.
  - rewrite <- Hpc by easy.
    now destruct (computeLinearRegression (front :: rest)) as [s1 b1].
  - destruct Hsi as [<- <-]; easy.
Qed.

(** What the cascade leaves after the points are replaced twice is what it
    leaves after the second replacement alone, as long as the vector in
    between was not empty. *)
Lemma cascade_replaces_points (st : AppState) (l1 l2 : list Point.t) :
  l1 <> [] ->
  updateAxes (updateModelAndBounds
    (setDataPoints (updateAxes (updateModelAndBounds (setDataPoints st l1))) l2))
  = updateAxes (updateModelAndBounds (setDataPoints st l2)).
Proof.
  intros Hne.
  set (s1 := setDataPoints st l1).
  assert (Hpts1 : dataPoints s1 <> []) by exact Hne.
  destruct (updateModelAndBounds_inactive s1 Hpts1) as [Hpc Hsi].
  destruct (updateModelAndBounds_window s1) as [HW HH].
  pose proof (updateModelAndBounds_currentReg s1) as Hreg.
  apply cascade_determined.
  - reflexivity.
  - exact Hreg.
  - exact HW.
  - exact HH.
  - intros _ E. apply Hpc. now rewrite <- Hreg.
  - intros _ E. apply Hsi. now rewrite <- Hreg.
Qed.

Lemma screenDistance_same_view (st st' : AppState) (qx qy : R) (p : Point.t) :
  minX st' = minX st -> maxX st' = maxX st ->
  minY st' = minY st -> maxY st' = maxY st ->
  windowW st' = windowW st -> windowH st' = windowH st ->
  screenDistance st' qx qy p = screenDistance st qx qy p.
Proof.
  intros E1 E2 E3 E4 E5 E6. unfold screenDistance, toScreenCoords.
  now rewrite E1, E2, E3, E4, E5, E6.
Qed.

Lemma screenDistance_nonneg (st : AppState) (qx qy : R) (p : Point.t) :
  0 <= screenDistance st qx qy p.
Proof. unfold screenDistance. cbv zeta. apply sqrt_pos. Qed.

Lemma screenDistance_zero (st : AppState) (qx qy : R) (p : Point.t) :
  screenDistance st qx qy p = 0 <->
  toScreenCoords st (Point.x p) (Point.y p) = (qx, qy).
Proof.
  unfold screenDistance. cbv zeta.
  destruct (toScreenCoords st (Point.x p) (Point.y p)) as [sx sy].
  cbn [fst snd]. split.
  - intros H.
    apply sqrt_eq_0 in H;
      [|apply Rplus_le_le_0_compat; apply pow2_ge_0].
    rewrite <- !Rsqr_pow2 in H.
    destruct (Rplus_sqr_eq_0 _ _ H) as [Hx Hy].
    f_equal; lra.
  - intros H. injection H as -> ->.
    replace ((qx - qx) ^ 2 + (qy - qy) ^ 2) with 0 by ring. apply sqrt_0.
Qed.

Lemma erase_last (points : list Point.t) (p : Point.t) :
  erase (points ++ [p]) (length points) = points.
Proof.
  unfold erase.
  rewrite firstn_app, firstn_all, Nat.sub_diag. cbn [firstn].
  rewrite skipn_all2 by (rewrite length_app; cbn; lia).
  now rewrite !app_nil_r.
Qed.

Lemma click_then_undo (st : AppState) (x y : Z) :
  updateAxes (updateModelAndBounds st) = st ->
  windowW st <> 100 -> windowH st <> 220 ->
  dataPoints st <> [] ->
  minX st + 1 <= fst (toDataCoords st (IZR x) (IZR y)) <= maxX st - 1 ->
  minY st + 1 <= snd (toDataCoords st (IZR x) (IZR y)) <= maxY st - 1 ->
  (forall p, In p (dataPoints st) ->
     toScreenCoords st (Point.x p) (Point.y p) <> (IZR x, IZR y)) ->
  removeNearestPoint (addClickedPoint st (IZR x) (IZR y)) (IZR x) (IZR y) = st.
Proof.
  intros Hfix HW HH Hne HdX HdY Hfree.
  set (qx := IZR x) in *. set (qy := IZR y) in *.
  set (d := toDataCoords st qx qy) in *.
  set (new := Point.mk (fst d) (snd d)).
  set (st1 := addClickedPoint st qx qy).
  destruct (addClickedPoint_bounds st qx qy Hfix Hne HdX HdY)
    as (E1 & E2 & E3 & E4). fold st1 in E1, E2, E3, E4.
  destruct (addClickedPoint_window st qx qy) as [EW EH]. fold st1 in EW, EH.
  destruct (fixed_point_in_sync st Hfix) as (_ & (HX & HY & _) & _).
  assert (Hpts : dataPoints st1 = dataPoints st ++ [new])
    by apply addClickedPoint_dataPoints.
  assert (Hsame : forall p, screenDistance st1 qx qy p = screenDistance st qx qy p)
    by (intros p; now apply screenDistance_same_view).
  assert (Hnew : screenDistance st1 qx qy new = 0).
  { rewrite Hsame. apply screenDistance_zero. unfold new. cbn [Point.x Point.y].
    apply toScreen_after_toData; lra. }
  assert (Hfn : firstNearest st1 qx qy (dataPoints st1)
                             (length (dataPoints st)) new).
  { rewrite Hpts. repeat split.
    - rewrite nth_error_app2, Nat.sub_diag by lia. reflexivity.
    - intros j q _. rewrite Hnew. apply screenDistance_nonneg.
    - intros j q Hj Hq. rewrite nth_error_app1 in Hq by exact Hj.
      apply nth_error_In in Hq. rewrite Hnew, Hsame.
      destruct (screenDistance_nonneg st qx qy q) as [Hpos | Hzero];
        [exact Hpos|].
      exfalso. apply (Hfree q Hq). apply screenDistance_zero. now symmetry. }
  rewrite (removal_when_near st1 qx qy _ new Hfn) by (rewrite Hnew; lra).
  rewrite Hpts, erase_last. unfold st1, addClickedPoint. cbv zeta. fold d new.
  rewrite cascade_replaces_points by (now destruct (dataPoints st)).
  now rewrite setDataPoints_same.
Qed.

(** X19. Over exact arithmetic, in a state with points that the event
    loop reaches from its start state while left clicks arrive only in a
    window neither 100 wide nor 220 high, and whose window is neither 100
    wide nor 220 high, a left click whose image lies in the box of the
    data, at a pixel where no point is drawn yet, followed by a right
    click at the same pixel, gives back the state as it was: the second
    click removes exactly the point the first one added. *)
Theorem right_click_undoes_left_click (st : AppState) (x y : Z) :
  reachable st ->
  windowW st <> 100 -> windowH st <> 220 ->
  dataPoints st <> [] ->
  minX st + 1 <= fst (toDataCoords st (IZR x) (IZR y)) <= maxX st - 1 ->
  minY st + 1 <= snd (toDataCoords st (IZR x) (IZR y)) <= maxY st - 1 ->
  (forall p, In p (dataPoints st) ->
     toScreenCoords st (Point.x p) (Point.y p) <> (IZR x, IZR y)) ->
  handleEvents st [MouseButtonPressed ButtonLeft x y;
                   MouseButtonPressed ButtonRight x y] = st.
Proof.
  intros Hr. unfold handleEvents. cbn [fold_left handleEvent].
  apply click_then_undo. now apply reachable_fixed_point.
Qed.

Lemma right_click_undoes_left_click_witness :
  handleEvents demoState [MouseButtonPressed ButtonLeft 400 360;
                          MouseButtonPressed ButtonRight 400 360] = demoState.
Proof.
  destruct demoState_bounds as (H1 & H2 & H3 & H4 & H5 & H6).
  assert (Hd : toDataCoords demoState 400 360 = (3, 2.75)).
  { unfold toDataCoords. cbv zeta. rewrite H1, H2, H3, H4, H5, H6.
    f_equal; lra. }
  apply right_click_undoes_left_click.
  - apply reach_start.
  - rewrite H5. lra.
  - rewrite H6. lra.
  - rewrite demoState_dataPoints. discriminate.
  - rewrite Hd, H1, H2. cbn [fst]. lra.
  - rewrite Hd, H3, H4. cbn [snd]. lra.
  - rewrite demoState_dataPoints. intros p Hp E.
    unfold toScreenCoords in E. rewrite H1, H2, H3, H4, H5, H6 in E.
    injection E as Ex Ey.
    unfold demoPoints in Hp. cbn [In] in Hp.
    destruct Hp as [<- | [<- | [<- | [<- | [<- | []]]]]];
      cbn [Point.x Point.y] in Ex, Ey; lra.
Defined.

(** * Where rounding departs from exact arithmetic *)

Ltac eval_realValue :=
  unfold Binary.realValue;
  cbv [cond_Zopp Z.leb Z.compare Z.opp Z.pow Z.pow_pos Pos.iter
       Z.mul Pos.mul Pos.add Pos.succ].





Lemma singularPoints_real :
  realPoints Binary.singularPoints = singularPoints.
Proof.
  replace Binary.singularPoints with
    [ Binary.Point.mk (S754_finite false 16384000 (-14))
                      (S754_finite false 16392192 (-13));
      Binary.Point.mk (S754_finite false 16384000 (-14))
                      (S754_finite false 16392192 (-13));
      Binary.Point.mk (S754_finite false 16400384 (-14))
                      (S754_finite false 16408576 (-13)) ]
    by (vm_compute; reflexivity).
  unfold realPoints, singularPoints.
  cbn [map Binary.Point.x Binary.Point.y].
  eval_realValue. repeat f_equal; lra.
Qed.




Lemma singular_exact_fit :
  xAmong 1000 1001 singularPoints /\
  normalDet singularPoints = 0 /\
  computePolynomialRegression2 singularPoints = Poly2Coeffs.mk 0 0 0.
Proof.
  assert (Hx : xAmong 1000 1001 singularPoints).
  { intros p Hp. unfold singularPoints in Hp. cbn [In] in Hp.
    destruct Hp as [<- | [<- | [<- | []]]]; cbn [Point.x]; auto. }
  split; [exact Hx|]. split.
  - now apply (two_x_det_zero 1000 1001).
  - apply small_det_exit. rewrite (two_x_det_zero 1000 1001) by exact Hx.
    rewrite Rabs_R0. exact detThreshold_pos.
Qed.




(** The singular matrix in binary64. *)
Lemma binary_singular_run :
  Binary.matrixA 3 (Binary.sumsOf Binary.singularPoints)
  = map (map Binary.ofZ64) singularMatrix /\
  Binary.determinant Binary.singularPoints = Binary.ofZ64 (-384) /\
  Binary.ltb (SFabs (Binary.determinant Binary.singularPoints))
             Binary.detThreshold = false /\
  Binary.computePolynomialRegression2 Binary.singularPoints
  = Binary.Poly2Coeffs.mk (S754_zero true)
                          (S754_finite false 13238272 (-20))
                          (S754_finite true 10882603 (-10)).
Proof. repeat split; vm_compute; reflexivity. Qed.

(** C3. A list of fewer than 3 points gets {0,0,0}, and so does a list
    whose determinant as computed by [det3] in binary64 is below 1e-12 in
    absolute value.  But a singular matrix is not always seen as such: the
    points (1000,2001), (1000,2001), (1001,2003) are held exactly, have two
    distinct abscissae, and the matrix the program builds is the exact
    integer matrix, whose determinant is 0, below 1e-12; over exact
    arithmetic the result is {0,0,0}.  In binary64 [det3] rounds its
    products and gives D = −384, the test of line 209 fails, and the
    program returns a = −0, b = 12.625, c ≈ −10627.54. *)
Theorem binary64_singular_matrix_not_detected :
  (forall points : list Binary.Point.t,
     (length points < 3)%nat ->
     Binary.computePolynomialRegression2 points
     = Binary.Poly2Coeffs.mk Binary.zero Binary.zero Binary.zero) /\
  (forall points : list Binary.Point.t,
     Binary.ltb (SFabs (Binary.determinant points)) Binary.detThreshold = true ->
     Binary.computePolynomialRegression2 points
     = Binary.Poly2Coeffs.mk Binary.zero Binary.zero Binary.zero) /\
  realPoints Binary.singularPoints = singularPoints /\
  xAmong 1000 1001 singularPoints /\
  normalDet singularPoints = 0 /\
  computePolynomialRegression2 singularPoints = Poly2Coeffs.mk 0 0 0 /\
  Binary.matrixA 3 (Binary.sumsOf Binary.singularPoints)
  = map (map Binary.ofZ64) singularMatrix /\
  Binary.determinant Binary.singularPoints = Binary.ofZ64 (-384) /\
  Binary.ltb (SFabs (Binary.determinant Binary.singularPoints))
             Binary.detThreshold = false /\
  Binary.computePolynomialRegression2 Binary.singularPoints
  = Binary.Poly2Coeffs.mk (S754_zero true)
                          (S754_finite false 13238272 (-20))
                          (S754_finite true 10882603 (-10)) /\
  Binary.realValue (S754_finite false 13238272 (-20)) = 12.625 /\
  Binary.realValue (S754_finite true 10882603 (-10)) < -10627.
Proof.
  split; [exact binary_small_list|].
  split; [exact binary_small_det|].
  split; [exact singularPoints_real|].
  destruct singular_exact_fit as (Hx & HD & Hf).
  split; [exact Hx|]. split; [exact HD|]. split; [exact Hf|].
  destruct binary_singular_run as (Hm & HbD & Hlt & Hbf).
  split; [exact Hm|]. split; [exact HbD|]. split; [exact Hlt|].
  split; [exact Hbf|].
  split; eval_realValue; lra.
Qed.

(** Three far points of y = 2x + 1 in binary64: D = −8 where the exact
    determinant is 4, and the fit is not the line. *)
Lemma binary_farColinear_run :
  Binary.determinant Binary.farColinearPoints = Binary.ofZ64 (-8) /\
  Binary.computePolynomialRegression2 Binary.farColinearPoints
  = Binary.Poly2Coeffs.mk (S754_zero true)
                          (S754_finite false 10485760 (-23))
                          (S754_finite false 12345344 (-15)) /\
  Binary.realValue (S754_finite false 10485760 (-23)) = 1.25 /\
  Binary.realValue (S754_finite false 12345344 (-15)) = 376.75.
Proof.
  split; [vm_compute; reflexivity|].
  split; [vm_compute; reflexivity|].
  split; eval_realValue; lra.
Qed.


